(** * The Fedora glibc pipeline of [webscraping/fedora.py]

    A shallow embedding of the crawler, the build resolver, the downloader,
    the extractor and the gadget post-processing of [src/webscraping/fedora.py],
    with the properties the specification states about them.

    Modelling conventions.
    - Python [str] values are [string]s of ASCII characters; the character
      classes ([\d], white space, letter case) are the ASCII ones.
    - A dict keyed by [(version, disttag)] is a [gmap (string * string) _].
    - An HTML page is the list of its [<a href=...>] elements in document
      order, which is all [soup.find_all('a', href=True)] exposes.
    - The network, the file system and the external tools are oracles that
      the functions receive as arguments; raised exceptions are values of
      the type [result]. *)

From Stdlib Require Import ZArith NArith Ascii String List Lia Bool DecimalString.
From stdpp Require Import base option gmap strings list fin_maps.

Local Open Scope string_scope.

#[local] Arguments String.append !_ _ / : simpl nomatch.

(** ** Python string primitives *)

Module PyStr.

(** [\d] restricted to ASCII. *)
Definition is_digit (c : ascii) : bool :=
  (48 <=? nat_of_ascii c)%nat && (nat_of_ascii c <=? 57)%nat.

(** The ASCII characters for which [str.isspace] holds. *)
Definition is_space (c : ascii) : bool :=
  let n := nat_of_ascii c in
  ((9 <=? n)%nat && (n <=? 13)%nat) || ((28 <=? n)%nat && (n <=? 32)%nat).

Definition is_upper (c : ascii) : bool :=
  (65 <=? nat_of_ascii c)%nat && (nat_of_ascii c <=? 90)%nat.

Definition lower_char (c : ascii) : ascii :=
  if is_upper c then ascii_of_nat (nat_of_ascii c + 32) else c.

(** [s.lower()] *)
Fixpoint lower (s : string) : string :=
  match s with
  | EmptyString => EmptyString
  | String c s' => String (lower_char c) (lower s')
  end.

(** [s.startswith(p)] *)
Fixpoint startswith (p s : string) : bool :=
  match p, s with
  | EmptyString, _ => true
  | String a p', String b s' => if Ascii.eqb a b then startswith p' s' else false
  | String _ _, EmptyString => false
  end.

(** [p in s] *)
Fixpoint contains (p s : string) : bool :=
  startswith p s ||
  match s with
  | EmptyString => false
  | String _ s' => contains p s'
  end.

(** What is left of [s] after the prefix [p], when [s] starts with it. *)
Fixpoint drop_prefix (p s : string) : option string :=
  match p, s with
  | EmptyString, _ => Some s
  | String a p', String b s' => if Ascii.eqb a b then drop_prefix p' s' else None
  | String _ _, EmptyString => None
  end.

Fixpoint rev_acc (s acc : string) : string :=
  match s with
  | EmptyString => acc
  | String c s' => rev_acc s' (String c acc)
  end.

Definition rev (s : string) : string := rev_acc s EmptyString.

(** [s.endswith(p)] *)
Definition endswith (p s : string) : bool := startswith (rev p) (rev s).

(** [s.lstrip()], [s.rstrip()], [s.strip()] *)
Fixpoint lstrip (s : string) : string :=
  match s with
  | EmptyString => EmptyString
  | String c s' => if is_space c then lstrip s' else s
  end.

Definition rstrip (s : string) : string := rev (lstrip (rev s)).

Definition strip (s : string) : string := rstrip (lstrip s).

(** The longest prefix of digits, a greedy [\d*], and what follows it. *)
Fixpoint span_digits (s : string) : string * string :=
  match s with
  | EmptyString => (EmptyString, EmptyString)
  | String c s' =>
      if is_digit c
      then let '(d, r) := span_digits s' in (String c d, r)
      else (EmptyString, s)
  end.

(** A greedy [\d+]: it fails when no digit is there. *)
Definition digits1 (s : string) : option (string * string) :=
  match span_digits s with
  | (EmptyString, _) => None
  | (d, r) => Some (d, r)
  end.

Fixpoint all_digits (s : string) : bool :=
  match s with
  | EmptyString => true
  | String c s' => is_digit c && all_digits s'
  end.

Definition digit_value (c : ascii) : N := N.of_nat (nat_of_ascii c - 48).

(** [int(s)] for a string of decimal digits. *)
Definition int_of_digits (s : string) : N :=
  (fix go (s : string) (acc : N) : N :=
     match s with
     | EmptyString => acc
     | String c s' => go s' (acc * 10 + digit_value c)%N
     end) s 0%N.

(** [re.search] tries a pattern at every position, from the left. *)
Fixpoint search {A} (at_pos : string -> option A) (s : string) : option A :=
  match at_pos s with
  | Some r => Some r
  | None =>
      match s with
      | EmptyString => None
      | String _ s' => search at_pos s'
      end
  end.

(** Whether a match was found. *)
Definition matched {A} (o : option A) : bool :=
  match o with
  | Some _ => true
  | None => false
  end.

End PyStr.

(** ** Results of code that may raise *)

Inductive exn : Type :=
  | ValueError (msg : string)
  | IndexError
  | TypeError
  | FileNotFoundError
  | UnicodeDecodeError
  | OSError.

Inductive result (A : Type) : Type :=
  | Return (a : A)
  | Raise (e : exn).

Arguments Return {A} a.
Arguments Raise {A} e.

(** How a loop over items ends: normally, or by an exception that nothing
    catches; either way with the state it had reached. *)
Inductive outcome (S : Type) : Type :=
  | Finished (st : S)
  | Crashed (e : exn) (st : S).

Arguments Finished {S} st.
Arguments Crashed {S} e st.

Definition outcome_state {S : Type} (o : outcome S) : S :=
  match o with
  | Finished st | Crashed _ st => st
  end.

(** ** Naming of the extracted library: [create_libc_filename] *)

Module Naming.
Import PyStr.

(** The part of a match of [\d+\.\d+(?:\.\d+)*] that follows its first
    dot: digits, and a dot only when a digit comes after it. *)
Fixpoint version_tail (s : string) : string :=
  match s with
  | EmptyString => EmptyString
  | String c s' =>
      if is_digit c then String c (version_tail s')
      else if Ascii.eqb c "."
           then match s' with
                | String d _ => if is_digit d then String c (version_tail s') else EmptyString
                | EmptyString => EmptyString
                end
           else EmptyString
  end.

(** [version_pattern], that is [\d+\.\d+(?:\.\d+)*] as group 1, matched
    at the start of [s]; the result is [group(1)]. *)
Definition version_pattern_at (s : string) : option string :=
  match digits1 s with
  | Some (d1, String dot (String c r as r2)) =>
      if Ascii.eqb dot "." && is_digit c
      then Some (d1 +:+ "." +:+ version_tail r2)
      else None
  | _ => None
  end.

Definition create_libc_filename (rpm_filename : string) : result string :=
  match search version_pattern_at rpm_filename with
  | Some version => Return ("libc-" +:+ version +:+ ".so")
  | None => Raise (ValueError ("Could not extract version from filename: " +:+ rpm_filename))
  end.

End Naming.

(** ** The version catalog crawler *)

Module Crawler.
Import PyStr.

(** An [<a href=...>] element: [link.get_text()] and [link['href']]. *)
Record anchor : Type := Anchor { a_text : string; a_href : string }.

(** A value of [version_dict]. *)
Record entry : Type := Entry {
  release : N;
  build_id : string;
  full_name : string;
  source_url : string
}.

#[export] Instance entry_eq_dec : EqDecision entry.
Proof. solve_decision. Defined.

Abbreviation catalog := (gmap (string * string) entry).

(** [pattern = glibc-(\d+\.\d+)-(\d+)\.(fc\d+)] under [pattern.match]:
    anchored at the start of the text. Every [\d+] but the last is
    followed by a character that is no digit, and nothing follows the
    last one, so the greedy match is the only one. The result is
    [(group(1), group(2), group(3))]. *)
Definition glibc_pattern_match (s : string) : option (string * string * string) :=
  r0 ← drop_prefix "glibc-" s;
  '(major, r1) ← digits1 r0;
  r2 ← drop_prefix "." r1;
  '(minor, r3) ← digits1 r2;
  r4 ← drop_prefix "-" r3;
  '(rel, r5) ← digits1 r4;
  r6 ← drop_prefix ".fc" r5;
  '(fc, _) ← digits1 r6;
  Some (major +:+ "." +:+ minor, rel, "fc" +:+ fc).

(** [buildID=(\d+)] at the start of [s]; the result is [group(1)]. *)
Definition build_id_at (s : string) : option string :=
  r ← drop_prefix "buildID=" s;
  '(d, _) ← digits1 r;
  Some d.

(** Truth value of a [str] or [None]. *)
Definition truthy (o : option string) : bool :=
  match o with
  | Some (String _ _) => true
  | _ => false
  end.

(** Lines 51 to 67: the key and the entry of a link that passes both
    guards, the match of the pattern and [build_id and
    disttag.startswith('fc')]. *)
Definition candidate (url : string) (link : anchor) : option ((string * string) * entry) :=
  let link_text := strip (a_text link) in
  '(version, rel, disttag) ← glibc_pattern_match link_text;
  let release := int_of_digits rel in
  let build_id := search build_id_at (a_href link) in
  if truthy build_id && startswith "fc" disttag
  then Some ((version, disttag), Entry release (default "" build_id) link_text url)
  else None.

(** Lines 72 to 78: keep only the lowest release of a key. *)
Definition keep_lowest (version_dict : catalog) (row : (string * string) * entry) : catalog :=
  let '(key, e) := row in
  match version_dict !! key with
  | None => <[key := e]> version_dict
  | Some old =>
      if (release e <? release old)%N
      then <[key := e]> version_dict
      else version_dict
  end.

(** The body of the loop over the links of a page. *)
Definition scrape_link (url : string) (st : bool * catalog) (link : anchor) : bool * catalog :=
  let '(glibc_found, version_dict) := st in
  match glibc_pattern_match (strip (a_text link)) with
  | Some _ =>
      (true, match candidate url link with
             | Some row => keep_lowest version_dict row
             | None => version_dict
             end)
  | None => (glibc_found, version_dict)
  end.

(** [scrape_glibc_versions_from_page]; [response] is what
    [requests.get(url)] gave, [None] for a [RequestException]. *)
Definition scrape_glibc_versions_from_page
    (response : option (list anchor)) (url : string) (version_dict : catalog)
    : bool * catalog :=
  match response with
  | None => (false, version_dict)
  | Some links => foldl (scrape_link url) (false, version_dict) links
  end.

(** *** Pagination *)

(** [int(s)] on ASCII text: white space around, an optional sign, decimal
    digits with single underscores between them. The interpreter's limit
    on the number of digits is not modelled. *)
Fixpoint int_body (s : string) (acc : N) (after_digit : bool) : option N :=
  match s with
  | EmptyString => if after_digit then Some acc else None
  | String c s' =>
      if is_digit c then int_body s' (acc * 10 + digit_value c)%N true
      else if Ascii.eqb c "_" && after_digit
           then match s' with
                | String d _ => if is_digit d then int_body s' acc false else None
                | EmptyString => None
                end
           else None
  end.

Definition py_int (s : string) : option Z :=
  match strip s with
  | String "-" body => n ← int_body body 0%N false; Some (- Z.of_N n)%Z
  | String "+" body => n ← int_body body 0%N false; Some (Z.of_N n)
  | body => n ← int_body body 0%N false; Some (Z.of_N n)
  end.

(** [str(n)] *)
Definition py_str (n : Z) : string := NilZero.string_of_int (Z.to_int n).

(** [s.replace(old, new)] for a non-empty [old]; [skip] counts the
    characters of an occurrence that are still to be passed over. *)
Fixpoint replace_from (old new s : string) (skip : nat) : string :=
  match s with
  | EmptyString => EmptyString
  | String c s' =>
      match skip with
      | S k => replace_from old new s' k
      | O =>
          if startswith old s
          then new +:+ replace_from old new s' (String.length old - 1)
          else String c (replace_from old new s' 0)
      end
  end.

Definition replace (old new s : string) : string := replace_from old new s 0.

(** Lookup and in-place update of an insertion-ordered dict. *)
Fixpoint dict_get {V} (k : string) (d : list (string * V)) : option V :=
  match d with
  | [] => None
  | (k', v) :: d' => if String.eqb k k' then Some v else dict_get k d'
  end.

Fixpoint dict_set {V} (k : string) (v : V) (d : list (string * V)) : list (string * V) :=
  match d with
  | [] => [(k, v)]
  | (k', v') :: d' => if String.eqb k k' then (k, v) :: d' else (k', v') :: dict_set k v d'
  end.

(** What [urlparse] returns, as far as the crawler reads it. *)
Record parsed_url : Type := ParsedUrl {
  scheme : string;
  netloc : string;
  path : string;
  query : string;
  fragment : string
}.

(** The functions of [urllib.parse] that the crawler calls. *)
Record urllib : Type := UrlLib {
  urljoin : string -> string -> string;
  urlparse : string -> parsed_url;
  parse_qs : string -> list (string * list string);
  urlencode : list (string * list string) -> string
}.

Definition base_url : string :=
  "https://koji.fedoraproject.org/koji/packageinfo?buildStart=0&packageID=57&buildOrder=-completion_time&tagOrder=name&tagStart=0#buildlist".

(** The crawl's variables, and [requests], the trace of the calls of
    [requests.get] so far (the first argument of the network oracle is
    the number of calls made before). *)
Record crawl_state : Type := CrawlState {
  version_dict : catalog;
  processed_urls : gset string;
  current_url : string;
  page_count : nat;
  requests : list string
}.

Inductive iteration : Type :=
  | Continue (st : crawl_state)
  | Break (st : crawl_state)
  | Crash (e : exn) (st : crawl_state).

Section Pagination.
Variable lib : urllib.
Variable http_get : nat -> string -> option (list anchor).

(** Line 133, the test of a next-page link. *)
Definition is_next_link (link : anchor) : bool :=
  let link_text := strip (a_text link) in
  contains ">>>" link_text || contains ">>" link_text || contains "Next" (lower link_text).

(** Lines 125 to 135: the target of the first next-page link. *)
Definition find_next_link (current_url : string) (pagination_links : list anchor)
    : option string :=
  match List.find is_next_link pagination_links with
  | Some link => Some (urljoin lib current_url (a_href link))
  | None => None
  end.

(** Lines 139 to 154: the next URL built from the current one. *)
Definition construct_next_url (current_url : string) : result string :=
  let parsed := urlparse lib current_url in
  let query_params := parse_qs lib (query parsed) in
  match dict_get "buildStart" query_params with
  | Some values =>
      match values with
      | [] => Raise IndexError
      | v :: _ =>
          match py_int v with
          | None => Raise (ValueError ("invalid literal for int() with base 10: " +:+ v))
          | Some current_start =>
              let next_start := (current_start + 50)%Z in
              let query_params := dict_set "buildStart" [py_str next_start] query_params in
              let new_query := urlencode lib query_params in
              Return (scheme parsed +:+ "://" +:+ netloc parsed +:+ path parsed
                      +:+ "?" +:+ new_query +:+ fragment parsed)
          end
      end
  | None => Return (replace "buildStart=0" "buildStart=50" base_url)
  end.

(** Lines 125 to 154. *)
Definition next_page_url (current_url : string) (pagination_links : list anchor)
    : result string :=
  let next_url := find_next_link current_url pagination_links in
  if truthy next_url then Return (default "" next_url)
  else construct_next_url current_url.

(** The test of the [while] loop. *)
Definition loop_guard (st : crawl_state) : bool :=
  truthy (Some (current_url st)) && bool_decide (current_url st ∉ processed_urls st).

(** One pass through the body of the [while] loop. *)
Definition crawl_iter (st : crawl_state) : iteration :=
  let url := current_url st in
  let page_count := S (page_count st) in
  let processed := processed_urls st ∪ {[url]} in
  let response := http_get (List.length (requests st)) url in
  let trace := (requests st ++ [url])%list in
  let '(glibc_found, dict) :=
    scrape_glibc_versions_from_page response url (version_dict st) in
  if negb glibc_found
  then Break (CrawlState dict processed url page_count trace)
  else
    let response := http_get (List.length trace) url in
    let trace := (trace ++ [url])%list in
    match response with
    | None => Break (CrawlState dict processed url page_count trace)
    | Some pagination_links =>
        match next_page_url url pagination_links with
        | Raise e => Crash e (CrawlState dict processed url page_count trace)
        | Return next_url =>
            if bool_decide (next_url ∈ processed)
            then Break (CrawlState dict processed url page_count trace)
            else Continue (CrawlState dict processed next_url page_count trace)
        end
    end.

(** The [while] loop; [None] when [fuel] passes do not end it. *)
Fixpoint crawl_loop (fuel : nat) (st : crawl_state) : option (outcome crawl_state) :=
  if loop_guard st then
    match fuel with
    | O => None
    | S fuel' =>
        match crawl_iter st with
        | Continue st' => crawl_loop fuel' st'
        | Break st' => Some (Finished st')
        | Crash e st' => Some (Crashed e st')
        end
    end
  else Some (Finished st).

Definition initial_state : crawl_state :=
  CrawlState ∅ ∅ base_url 0 [].

(** The state in which a pass through the body ends. *)
Definition iteration_state (it : iteration) : crawl_state :=
  match it with
  | Continue st | Break st | Crash _ st => st
  end.

(** The states at the head of the loop that the crawl passes through
    after [st]. *)
Inductive reaches (st : crawl_state) : crawl_state -> Prop :=
  | reaches_here : reaches st st
  | reaches_next st' st'' :
      reaches st st' -> loop_guard st' = true -> crawl_iter st' = Continue st'' ->
      reaches st st''.

(** [get_glibc_versions_all_pages]: the final state holds the returned
    [version_dict] and the printed [page_count]. *)
Definition get_glibc_versions_all_pages (fuel : nat) : option (outcome crawl_state) :=
  crawl_loop fuel initial_state.

End Pagination.

End Crawler.

(** ** The build resolver *)

Module Resolver.
Import PyStr.
Import Crawler.

Definition target_architectures : list string := ["aarch64"; "i686"; "x86_64"].

Definition excluded : list string :=
  ["debuginfo"; "debugsource"; "devel"; "headers"; "static"; "utils"].

(** [glibc-\d+\.\d+-\d+\.fc\d+\.{arch}\.rpm] at the start of [s], for an
    [arch] without characters that are special in a pattern, as the
    three target architectures are. *)
Definition main_package_at (arch s : string) : option unit :=
  r0 ← drop_prefix "glibc-" s;
  '(_, r1) ← digits1 r0;
  r2 ← drop_prefix "." r1;
  '(_, r3) ← digits1 r2;
  r4 ← drop_prefix "-" r3;
  '(_, r5) ← digits1 r4;
  r6 ← drop_prefix ".fc" r5;
  '(_, r7) ← digits1 r6;
  _ ← drop_prefix ("." +:+ arch +:+ ".rpm") r7;
  Some ().

Definition main_package_search (arch href : string) : bool :=
  matched (search (main_package_at arch) href).

(** Lines 204 to 206. *)
Definition is_glibc_rpm (href : string) : bool :=
  endswith ".rpm" href && contains "glibc-" href
  && negb (existsb (fun exclude => contains exclude href) excluded).

(** Lines 209 to 215, the loop over the architectures with its [break]. *)
Fixpoint assign_arch (archs : list string) (href : string) (rpm_urls : gmap string string)
    : gmap string string :=
  match archs with
  | [] => rpm_urls
  | arch :: archs' =>
      if contains ("/" +:+ arch +:+ "/") href && bool_decide (rpm_urls !! arch = None)
      then if main_package_search arch href
           then <[arch := href]> rpm_urls
           else assign_arch archs' href rpm_urls
      else assign_arch archs' href rpm_urls
  end.

Definition resolve_link (rpm_urls : gmap string string) (link : anchor) : gmap string string :=
  let href := a_href link in
  if is_glibc_rpm href
  then assign_arch target_architectures href rpm_urls
  else rpm_urls.

(** [extract_rpm_urls_from_buildinfo]; [response] is what
    [requests.get(buildinfo_url)] gave, [None] for a [RequestException]. *)
Definition extract_rpm_urls_from_buildinfo (response : option (list anchor))
    : gmap string string :=
  match response with
  | None => ∅
  | Some links => foldl resolve_link ∅ links
  end.

End Resolver.

(** ** Paths *)

Module PyPath.
Import PyStr.

(** [os.path.basename] *)
Fixpoint basename (p : string) : string :=
  match p with
  | EmptyString => EmptyString
  | String _ p' => if contains "/" p then basename p' else p
  end.

(** [os.path.join] of two components. *)
Definition join (a b : string) : string :=
  if startswith "/" b then b
  else if String.eqb a "" || endswith "/" a then a +:+ b
  else a +:+ "/" +:+ b.

(** [s.lstrip(chars)] *)
Fixpoint lstrip_chars (chars s : string) : string :=
  match s with
  | EmptyString => EmptyString
  | String c s' => if contains (String c EmptyString) chars then lstrip_chars chars s' else s
  end.

(** What follows the first dot of [s], or [None] without a dot. *)
Fixpoint after_dot (s : string) : option string :=
  match s with
  | EmptyString => None
  | String c s' => if Ascii.eqb c "." then Some s' else after_dot s'
  end.

Fixpoint all_dots (s : string) : bool :=
  match s with
  | EmptyString => true
  | String c s' => Ascii.eqb c "." && all_dots s'
  end.

(** [os.path.splitext(name)[0]] for a [name] without a slash: the last
    dot splits, unless only dots come before it. *)
Definition splitext_root (name : string) : string :=
  match after_dot (rev name) with
  | Some root_rev => if all_dots root_rev then name else rev root_rev
  | None => name
  end.

End PyPath.

(** ** The artifact downloader *)

Module Downloader.
Import PyStr PyPath.

(** How the [try] block of one item ends: it completes, it raises a
    [requests.exceptions.RequestException] ([requests.get],
    [raise_for_status], [iter_content]), or [open] or [f.write] raise
    an [OSError]. *)
Inductive transfer : Type :=
  | Completed
  | RequestError
  | LocalIOError.

Definition download_dir : string := "../GlibcDownloads/Fedora".

(** [file_paths] and [count], and [attempted], the trace of the URLs
    handed to [requests.get]. *)
Record download_state : Type := DownloadState {
  file_paths : list string;
  count : nat;
  attempted : list string
}.

Section Download.
(** [urlparse(url).path] *)
Variable url_path : string -> string.
(** The outcome of the n-th attempt, on a URL. *)
Variable stream : nat -> string -> transfer.

Definition local_path (url : string) : string :=
  let file_path := url_path url in
  let file_name := basename file_path in
  join download_dir file_name.

(** The loop of lines 392 to 414. *)
Fixpoint download_loop (urls : list string) (st : download_state)
    : outcome download_state :=
  match urls with
  | [] => Finished st
  | url :: urls' =>
      let full_path := local_path url in
      let tried := (attempted st ++ [url])%list in
      match stream (List.length (attempted st)) url with
      | Completed =>
          download_loop urls'
            (DownloadState (file_paths st ++ [full_path])%list (S (count st)) tried)
      | RequestError =>
          download_loop urls' (DownloadState (file_paths st) (count st) tried)
      | LocalIOError =>
          Crashed OSError (DownloadState (file_paths st) (count st) tried)
      end
  end.

(** [download_rpms_all_version]; [urls] is what
    [fetch_rpm_urls_all_versions] returned, [None] when the catalog
    was empty. *)
Definition download_rpms_all_version (urls : option (list string))
    : outcome download_state :=
  match urls with
  | None => Crashed TypeError (DownloadState [] 0 [])
  | Some urls => download_loop urls (DownloadState [] 0 [])
  end.

End Download.

End Downloader.

(** ** The library extractor *)

Module Extractor.
Import PyStr PyPath Naming.

Definition LIBC_PATHS : list string :=
  ["./usr/lib64/libc.so.6"; "./usr/lib/libc.so.6"; "./lib64/libc.so.6"; "./lib/libc.so.6"].

(** The outside world of one call of [extract_with_rpm2cpio]: whether
    the two executables are found, the exit status of [cpio] for its
    arguments, whether what it wrote to its standard error decodes as
    UTF-8, and which paths exist afterwards. *)
Record extraction_env : Type := ExtractionEnv {
  rpm2cpio_found : bool;
  cpio_found : bool;
  cpio_returncode : list string -> Z;
  stderr_decodes : bool;
  path_exists : string -> bool
}.

Definition cpio_args (libc_filename : string) : list string :=
  (["cpio"; "-idmv"] ++ LIBC_PATHS
   ++ ["./lib/" +:+ libc_filename; "./lib64/" +:+ libc_filename])%list.

(** [extract_with_rpm2cpio]: only [FileNotFoundError] is caught, which
    the start of either process raises when its executable is missing. *)
Definition extract_with_rpm2cpio (env : extraction_env) (rpm_file output_dir : string)
    : result (option string) :=
  if negb (rpm2cpio_found env) then Return None
  else
    match create_libc_filename rpm_file with
    | Raise e => Raise e
    | Return libc_filename =>
        if negb (cpio_found env) then Return None
        else if (cpio_returncode env (cpio_args libc_filename) =? 0)%Z
             then Return (List.find (path_exists env)
                            (map (fun path => join output_dir (lstrip_chars "./" path))
                                 LIBC_PATHS))
             else if stderr_decodes env then Return None
                  else Raise UnicodeDecodeError
    end.

Definition binary_dir : string := "../GlibcDownloads/Fedora/Binaries".

(** The loop of [extract_all_rpms]; [item] is the index of the file and
    [env item] the world of its extraction. *)
Fixpoint extract_loop (env : nat -> extraction_env) (item : nat) (files : list string)
    (name_list : list string) : outcome (list string) :=
  match files with
  | [] => Finished name_list
  | f :: files' =>
      match extract_with_rpm2cpio (env item) f binary_dir with
      | Raise e => Crashed e name_list
      | Return result =>
          if Crawler.truthy result
          then let name := splitext_root (basename f) in
               extract_loop env (S item) files' (name_list ++ [name +:+ "_libc.so.6"])%list
          else extract_loop env (S item) files' name_list
      end
  end.

Definition extract_all_rpms (env : nat -> extraction_env) (files : list string)
    : outcome (list string) :=
  extract_loop env 0 files [].

End Extractor.

(** ** The gadget compiler: removal of the noise lines *)

Module GadgetCompiler.
Import PyStr.

(** [s.startswith(p)] without regard to letter case. *)
Fixpoint startswith_nocase (p s : string) : bool :=
  match p, s with
  | EmptyString, _ => true
  | String a p', String b s' =>
      if Ascii.eqb (lower_char a) (lower_char b) then startswith_nocase p' s' else false
  | String _ _, EmptyString => false
  end.

(** [\[LOAD\]|\[INFO\]] with [re.IGNORECASE], at the start of [s]. *)
Definition noise_at (s : string) : option unit :=
  if startswith_nocase "[LOAD]" s || startswith_nocase "[INFO]" s then Some () else None.

(** [pattern.search(line)] as a truth value. *)
Definition pattern_search (line : string) : bool :=
  matched (search noise_at line).

(** Lines 555 to 558: the lines written back, in the order of writing. *)
Definition remove_junk (lines : list string) : list string :=
  foldl (fun written line => if negb (pattern_search line)
                             then (written ++ [line])%list
                             else written)
        [] lines.

(** Lines 553 to 558 on a file system that maps a path to its lines. *)
Definition rewrite_gadget_file (fs : gmap string (list string)) (gadget_path : string)
    : gmap string (list string) :=
  match fs !! gadget_path with
  | Some lines => <[gadget_path := remove_junk lines]> fs
  | None => fs
  end.

End GadgetCompiler.

(** ** What the specification talks about *)

Module Spec.
Import PyStr.

(** One or more digits. *)
Definition digit_string (d : string) : Prop := d ≠ "" ∧ all_digits d = true.

(** A version-like token: one or more digits, a dot, one or more digits,
    optionally repeated. *)
Inductive version_token : string -> Prop :=
  | vt_pair d1 d2 :
      digit_string d1 -> digit_string d2 -> version_token (d1 +:+ "." +:+ d2)
  | vt_more t d :
      version_token t -> digit_string d -> version_token (t +:+ "." +:+ d).

(** The filename contains such a token. *)
Definition has_version_token (s : string) : Prop :=
  ∃ p t q, s = p +:+ t +:+ q ∧ version_token t.

(** [p] occurs in [s]. *)
Definition occurs_in (p s : string) : Prop := ∃ a b, s = a +:+ p +:+ b.

(** The first character of a string is no digit, or there is none. *)
Definition no_digit_ahead (s : string) : Prop :=
  match s with
  | EmptyString => True
  | String c _ => is_digit c = false
  end.

(** The first character of a string is a digit. *)
Definition digit_ahead (s : string) : Prop :=
  match s with
  | EmptyString => False
  | String c _ => is_digit c = true
  end.

(** Every character of the string is a digit or a dot. *)
Fixpoint digits_and_dots (s : string) : bool :=
  match s with
  | EmptyString => true
  | String c s' => (is_digit c || Ascii.eqb c ".") && digits_and_dots s'
  end.

(** No character of the string is a digit. *)
Fixpoint no_digits (s : string) : bool :=
  match s with
  | EmptyString => true
  | String c s' => negb (is_digit c) && no_digits s'
  end.

(** The text starts with glibc-, a version of two numbers, a release
    number and a disttag fc with a number. *)
Definition version_disttag_text (text : string) : Prop :=
  ∃ major minor rel fc rest,
    digit_string major ∧ digit_string minor ∧ digit_string rel ∧ digit_string fc
    ∧ text = "glibc-" +:+ major +:+ "." +:+ minor +:+ "-" +:+ rel +:+ ".fc" +:+ fc +:+ rest.

(** The visible text of a link. *)
Definition visible_text (link : Crawler.anchor) : string := strip (Crawler.a_text link).

(** Among [rows], the row [(k, e)] is the first one of its key with the
    lowest release: the rows of the key before it have a higher release
    and those after it have no lower one. *)
Definition first_lowest (rows : list ((string * string) * Crawler.entry))
    (k : string * string) (e : Crawler.entry) : Prop :=
  ∃ before after,
    rows = (before ++ (k, e) :: after)%list
    ∧ (∀ e', (k, e') ∈ before → (Crawler.release e < Crawler.release e')%N)
    ∧ (∀ e', (k, e') ∈ after → (Crawler.release e ≤ Crawler.release e')%N).

(** The state in which the crawl is left when it stops at the page of
    [st]: the page is counted, marked as processed and fetched once, and
    the catalog is the one of [st]. *)
Definition stopped_at (st : Crawler.crawl_state) : Crawler.crawl_state :=
  Crawler.CrawlState
    (Crawler.version_dict st)
    (Crawler.processed_urls st ∪ {[Crawler.current_url st]})
    (Crawler.current_url st)
    (S (Crawler.page_count st))
    (Crawler.requests st ++ [Crawler.current_url st])%list.

(** The link target passes the tests that the resolver makes for [arch],
    apart from the one that [arch] is still without a URL: it is an
    archive of the library outside the excluded subpackages, it has the
    path segment of [arch], and it has the name of a main package of
    [arch]. *)
Definition link_matches (arch href : string) : bool :=
  Resolver.is_glibc_rpm href
  && contains ("/" +:+ arch +:+ "/") href
  && Resolver.main_package_search arch href.

(** The test of lines 211 and 213 for [arch], given the map so far. *)
Definition takes (rpm_urls : gmap string string) (href arch : string) : bool :=
  contains ("/" +:+ arch +:+ "/") href && bool_decide (rpm_urls !! arch = None)
  && Resolver.main_package_search arch href.

(** [arch'] comes before [arch] in the list of target architectures. *)
Definition earlier (arch' arch : string) : Prop :=
  ∃ l1 l2, Resolver.target_architectures = (l1 ++ arch' :: l2)%list ∧ arch ∈ l2.

(** [href] is the target of a link of the page that matches [arch], and
    every link before it that matches [arch] too is the URL that
    [rpm_urls] gives to an architecture listed before [arch]. *)
Definition first_free_match (links : list Crawler.anchor) (rpm_urls : gmap string string)
    (arch href : string) : Prop :=
  ∃ before link after,
    links = (before ++ link :: after)%list
    ∧ Crawler.a_href link = href
    ∧ link_matches arch href = true
    ∧ ∀ l, l ∈ before → link_matches arch (Crawler.a_href l) = true →
           ∃ arch', earlier arch' arch ∧ rpm_urls !! arch' = Some (Crawler.a_href l).


(** [m] is [p] up to the case of its letters. *)
Definition any_case (p m : string) : Prop := lower m = lower p.

(** The line contains "[LOAD]" or "[INFO]" in some letter case. *)
Definition has_marker (line : string) : Prop :=
  ∃ a m b, line = a +:+ m +:+ b ∧ (any_case "[LOAD]" m ∨ any_case "[INFO]" m).

(** [out] is [lines] without the lines that have a marker: nothing else
    is dropped, nothing is moved and nothing is changed. *)
Inductive kept_lines : list string -> list string -> Prop :=
  | kept_nil : kept_lines [] []
  | kept_keep line lines out :
      ¬ has_marker line -> kept_lines lines out -> kept_lines (line :: lines) (line :: out)
  | kept_drop line lines out :
      has_marker line -> kept_lines lines out -> kept_lines (line :: lines) out.

End Spec.

(** ** A small site, for the examples *)

Module Fixtures.
Import Crawler.

(** A stand-in for [urllib.parse]: [urljoin] gives the link target, and a
    URL has no query. *)
Definition plain_urllib : urllib :=
  UrlLib (fun _ href => href) (fun _ => ParsedUrl "" "" "" "" "") (fun _ => []) (fun _ => "").

Definition first_page : list anchor :=
  [Anchor "Packages" "/koji/packages";
   Anchor " glibc-2.39-3.fc40 " "buildinfo?buildID=2400003";
   Anchor "glibc-2.39-5.fc40" "buildinfo?buildID=2400005";
   Anchor ">>>" "page2"].

Definition second_page : list anchor :=
  [Anchor "Packages" "/koji/packages"; Anchor "glibc" "packageinfo?packageID=57"].

(** The listing has two pages, whenever they are asked for. *)
Definition two_pages (n : nat) (url : string) : option (list anchor) :=
  if String.eqb url base_url then Some first_page
  else if String.eqb url "page2" then Some second_page
  else None.

(** The crawl of [two_pages], at the head of the loop for the second
    page. *)
Definition at_second_page : crawl_state :=
  CrawlState
    {[ ("2.39", "fc40") := Entry 3 "2400003" "glibc-2.39-3.fc40" base_url ]}
    {[ base_url ]} "page2" 1 [base_url; base_url].

(** A build page with the main packages of two architectures among
    subpackages and a source package. *)
Definition build_page : list anchor :=
  [Anchor "download" "https://kojipkgs.fedoraproject.org/packages/glibc/2.39/2.fc40/src/glibc-2.39-2.fc40.src.rpm";
   Anchor "download" "https://kojipkgs.fedoraproject.org/packages/glibc/2.39/2.fc40/aarch64/glibc-devel-2.39-2.fc40.aarch64.rpm";
   Anchor "download" "https://kojipkgs.fedoraproject.org/packages/glibc/2.39/2.fc40/aarch64/glibc-2.39-2.fc40.aarch64.rpm";
   Anchor "download" "https://kojipkgs.fedoraproject.org/packages/glibc/2.39/2.fc40/aarch64/glibc-debuginfo-2.39-2.fc40.aarch64.rpm";
   Anchor "download" "https://kojipkgs.fedoraproject.org/packages/glibc/2.39/2.fc40/x86_64/glibc-utils-2.39-2.fc40.x86_64.rpm";
   Anchor "download" "https://kojipkgs.fedoraproject.org/packages/glibc/2.39/2.fc40/x86_64/glibc-2.39-2.fc40.x86_64.rpm";
   Anchor "mirror" "https://mirror.example.org/x86_64/glibc-2.39-2.fc40.x86_64.rpm"].

(** A build page whose first link has the path segments and the package
    names of two architectures. *)
Definition ambiguous_page : list anchor :=
  [Anchor "download" "https://koji.example.org/aarch64/glibc-2.39-2.fc40.aarch64.rpm/x86_64/glibc-2.39-2.fc40.x86_64.rpm";
   Anchor "download" "https://koji.example.org/x86_64/glibc-2.39-2.fc40.x86_64.rpm"].

(** A transfer that fails on the disk at the first attempt only. *)
Definition disk_fails_first (n : nat) (url : string) : Downloader.transfer :=
  match n with
  | O => Downloader.LocalIOError
  | S _ => Downloader.Completed
  end.



End Fixtures.

(** ** The gadget compiler: the run over the extracted libraries *)

Module Gadgets.
Import PyStr PyPath.

(** [s.split(sep)] for a separator of one character. *)
Fixpoint split (sep : ascii) (s : string) : list string :=
  match s with
  | EmptyString => [EmptyString]
  | String c s' =>
      if Ascii.eqb c sep then EmptyString :: split sep s'
      else match split sep s' with
           | piece :: pieces => String c piece :: pieces
           | [] => [String c EmptyString]
           end
  end.

Definition gadgets_dir : string := "../Gadgets/Fedora".

(** Lines 533 to 538: the path of the gadget file of a library name. An
    index beyond the pieces of the name raises [IndexError]. *)
Definition gadget_path (name : string) : result string :=
  match split "." name !! 3 with
  | None => Raise IndexError
  | Some piece =>
      let arch := Crawler.replace "_libc" "" piece in
      let arch_dir := join gadgets_dir arch in
      match split "-" name !! 1 with
      | None => Raise IndexError
      | Some glibc_version =>
          match split "." name !! 2 with
          | None => Raise IndexError
          | Some fedora_version =>
              Return (join arch_dir
                        ("glibc_" +:+ glibc_version +:+ "_" +:+ fedora_version
                         +:+ "_" +:+ arch +:+ ".txt"))
          end
      end
  end.

(** What can end the run, beyond the exceptions of the earlier stages. *)
Inductive run_error : Type :=
  | Uncaught (e : exn)
  | CalledProcessError
  | NotADirectoryError.

(** The gadget files, each a list of lines, and whether the staging tree
    has been removed. *)
Record run_state : Type := RunState {
  files : gmap string (list string);
  staging_removed : bool
}.

Inductive run_outcome : Type :=
  | Done (st : run_state)
  | Failed (e : run_error) (st : run_state).

Definition run_state_of (o : run_outcome) : run_state :=
  match o with
  | Done st | Failed _ st => st
  end.

(** How the loop over the names ends, and the gadget files then. *)
Inductive loop_end : Type :=
  | LoopDone (fs : gmap string (list string))
  | LoopFailed (e : run_error) (fs : gmap string (list string)).

(** The loop of lines 532 to 558. [ropper glibc_path] is what the tool
    does for a library: [None] when it cannot be started, else the lines
    it writes and whether its exit status is 0. The file system takes every
    write. *)
Fixpoint gadgets_loop (ropper : string -> option (list string * bool))
    (names : list string) (fs : gmap string (list string)) : loop_end :=
  match names with
  | [] => LoopDone fs
  | name :: names' =>
      match gadget_path name with
      | Raise e => LoopFailed (Uncaught e) fs
      | Return path =>
          let glibc_path := join Extractor.binary_dir name in
          match ropper glibc_path with
          | None => LoopFailed (Uncaught FileNotFoundError) (<[path := []]> fs)
          | Some (out, false) => LoopFailed CalledProcessError (<[path := out]> fs)
          | Some (out, true) =>
              gadgets_loop ropper names'
                (GadgetCompiler.rewrite_gadget_file (<[path := out]> fs) path)
          end
      end
  end.

(** [create_rop_gadgets], from the outcome of [extract_all_rpms] on:
    the loop, then the removal of the staging tree, which must exist and
    be a directory. *)
Definition create_rop_gadgets (names : outcome (list string))
    (ropper : string -> option (list string * bool))
    (staging_exists staging_is_dir : bool) (fs : gmap string (list string))
    : run_outcome :=
  match names with
  | Crashed e _ => Failed (Uncaught e) (RunState fs false)
  | Finished names =>
      match gadgets_loop ropper names fs with
      | LoopFailed e fs' => Failed e (RunState fs' false)
      | LoopDone fs' =>
          if negb staging_exists then Failed (Uncaught FileNotFoundError) (RunState fs' false)
          else if negb staging_is_dir then Failed NotADirectoryError (RunState fs' false)
          else Done (RunState fs' true)
      end
  end.

End Gadgets.

(** ** From the catalog to the list of package URLs *)

Module Pipeline.
Import PyStr Crawler Resolver.

(** Lines 209 to 215 on a dict in insertion order, which is the order in
    which [items()] gives its entries. *)
Fixpoint assign_arch_ordered (archs : list string) (href : string)
    (rpm_urls : list (string * string)) : list (string * string) :=
  match archs with
  | [] => rpm_urls
  | arch :: archs' =>
      if contains ("/" +:+ arch +:+ "/") href && negb (matched (dict_get arch rpm_urls))
      then if main_package_search arch href
           then (rpm_urls ++ [(arch, href)])%list
           else assign_arch_ordered archs' href rpm_urls
      else assign_arch_ordered archs' href rpm_urls
  end.

Definition resolve_link_ordered (rpm_urls : list (string * string)) (link : anchor)
    : list (string * string) :=
  let href := a_href link in
  if is_glibc_rpm href
  then assign_arch_ordered target_architectures href rpm_urls
  else rpm_urls.

(** [extract_rpm_urls_from_buildinfo] with the order of insertion. *)
Definition extract_rpm_urls_ordered (response : option (list anchor))
    : list (string * string) :=
  match response with
  | None => []
  | Some links => foldl resolve_link_ordered [] links
  end.

(** An element of [download_urls]. *)
Record download_item : Type := DownloadItem {
  item_version : string;
  item_disttag : string;
  item_release : N;
  item_full_name : string;
  item_buildinfo_url : string;
  item_build_id : string;
  item_source_page : string;
  item_rpm_urls : list (string * string)
}.

Definition koji_url : string := "https://koji.fedoraproject.org/koji/".

Section Fetch.
Variable lib : urllib.
Variable http_get : nat -> string -> option (list anchor).

(** [generate_download_urls] on [version_dict.items()]; [trace] holds the
    requests made so far, and the result the requests made at the end. *)
Fixpoint generate_download_urls (items : list ((string * string) * entry))
    (trace : list string) : list download_item * list string :=
  match items with
  | [] => ([], trace)
  | ((version, disttag), info) :: items' =>
      let buildinfo_url := urljoin lib koji_url ("buildinfo?buildID=" +:+ build_id info) in
      let rpm_urls := extract_rpm_urls_ordered (http_get (List.length trace) buildinfo_url) in
      let '(rest, trace') :=
        generate_download_urls items' (trace ++ [buildinfo_url])%list in
      (DownloadItem version disttag (release info) (full_name info) buildinfo_url
         (build_id info) (source_url info) rpm_urls :: rest, trace')
  end.

(** The order of the keys [(version, disttag)]: that of tuples of
    strings. *)
Definition key_le (a b : download_item) : bool :=
  match String.compare (item_version a) (item_version b) with
  | Lt => true
  | Gt => false
  | Eq => String.leb (item_disttag a) (item_disttag b)
  end.

Fixpoint insert_sorted (x : download_item) (l : list download_item) : list download_item :=
  match l with
  | [] => [x]
  | y :: l' => if key_le x y then x :: l else y :: insert_sorted x l'
  end.

(** [urls.sort(key=...)], a stable sort. *)
Definition sort_by_key (l : list download_item) : list download_item :=
  foldr insert_sorted [] l.

(** [fetch_rpm_urls_all_versions] from the crawl on: [items] are the
    entries of the catalog that the crawl returned. *)
Definition fetch_rpm_urls_all_versions (items : list ((string * string) * entry))
    (trace : list string) : option (list string) * list string :=
  match items with
  | [] => (None, trace)
  | _ :: _ =>
      let '(urls, trace') := generate_download_urls items trace in
      let urls := sort_by_key urls in
      (Some (concat (map (fun item => map snd (item_rpm_urls item)) urls)), trace')
  end.

End Fetch.

Section Run.
Variable lib : urllib.
Variable http_get : nat -> string -> option (list anchor).
(** [version_dict.items()]: the entries in the order of their insertion,
    which the catalog as a finite map does not record. *)
Variable items_of : catalog -> list ((string * string) * entry).
Variable url_path : string -> string.
Variable stream : nat -> string -> Downloader.transfer.

(** [download_rpms_all_version] with the calls of lines 385 and 299 in
    place: the crawl, the build pages, the downloads. An exception of the
    crawl passes through; [None] when [fuel] passes do not end the crawl. *)
Definition download_stage (fuel : nat) : option (outcome Downloader.download_state) :=
  match get_glibc_versions_all_pages lib http_get fuel with
  | None => None
  | Some (Crashed e _) => Some (Crashed e (Downloader.DownloadState [] 0 []))
  | Some (Finished st) =>
      let '(urls, _) :=
        fetch_rpm_urls_all_versions lib http_get (items_of (version_dict st)) (requests st) in
      Some (Downloader.download_rpms_all_version url_path stream urls)
  end.

End Run.

End Pipeline.

(** ** Notions for the properties of the whole pipeline *)

Module Notions.
Import PyStr Crawler.

(** The entry [e] under the key [k] agrees with its display name: the
    pattern of the listing finds in the name the version and the disttag of
    the key and the decimal text of the release; the build id is a number;
    the disttag starts with fc. *)
Definition entry_of_text (k : string * string) (e : entry) : Prop :=
  ∃ rel, glibc_pattern_match (full_name e) = Some (k.1, rel, k.2)
         ∧ int_of_digits rel = release e
         ∧ Spec.digit_string (build_id e)
         ∧ startswith "fc" k.2 = true.

(** The entries agree with their names and come from requested pages. *)
Definition entries_sound (st : crawl_state) : Prop :=
  ∀ k e, version_dict st !! k = Some e →
         entry_of_text k e ∧ source_url e ∈ requests st.

(** What the loop keeps of its bookkeeping at its head: the test of the
    loop holds, every processed page was counted once and requested twice,
    and the requested URLs are the processed ones. *)
Definition bookkeeping (st : crawl_state) : Prop :=
  loop_guard st = true
  ∧ page_count st = size (processed_urls st)
  ∧ List.length (requests st) = 2 * page_count st
  ∧ ∀ u, u ∈ requests st ↔ u ∈ processed_urls st.



(** The character [c] does not occur in [s]. *)
Fixpoint lacks (c : ascii) (s : string) : bool :=
  match s with
  | EmptyString => true
  | String x s' => negb (Ascii.eqb x c) && lacks c s'
  end.

(** No line has a marker. *)
Definition clean (lines : list string) : Prop :=
  Forall (λ line, ¬ Spec.has_marker line) lines.

(** A tool that writes two noise lines and one gadget, and ends well. *)
Definition ropper_ok (glibc_path : string) : option (list string * bool) :=
  Some (["[INFO] Load gadgets from cache"; "[LOAD] loading... 100%";
         "0x0002a3e5: pop rdi; ret;"], true).

(** A tool that writes a noise line and ends with an error. *)
Definition ropper_fails (glibc_path : string) : option (list string * bool) :=
  Some (["[INFO] Load gadgets from cache"], false).


(** The name under which [extract_all_rpms] lists the library of a
    package file. *)
Definition listed_name (f : string) : string :=
  PyPath.splitext_root (PyPath.basename f) +:+ "_libc.so.6".

(** A world in which both tools run well and the library is found in
    the second candidate place. *)
Definition good_env : Extractor.extraction_env :=
  Extractor.ExtractionEnv true true (fun _ => 0%Z) true
    (fun p => String.eqb p "../GlibcDownloads/Fedora/Binaries/usr/lib/libc.so.6").

(** A world in which [cpio] fails. *)
Definition failing_env : Extractor.extraction_env :=
  Extractor.ExtractionEnv true true (fun _ => 2%Z) true (fun p => false).

(** [items_of] lists the entries of a catalog. *)
Definition enumerates (items_of : catalog → list ((string * string) * entry)) : Prop :=
  ∀ d : catalog, list_to_map (items_of d) = d.

(** A site that answers no request. *)
Definition unreachable (n : nat) (url : string) : option (list anchor) := None.

(** A site whose build pages are all [Fixtures.build_page]. *)
Definition build_pages (n : nat) (url : string) : option (list anchor) :=
  Some Fixtures.build_page.

(** The entries of a catalog with one build. *)
Definition one_build : list ((string * string) * entry) :=
  [(("2.39", "fc40"), Entry 2 "2400002" "glibc-2.39-2.fc40" base_url)].

End Notions.

(** * Properties *)

(** ** Facts about the string primitives *)

Module PyStrFacts.
Import PyStr Spec.

Lemma app_nil_r (s : string) : s +:+ "" = s.
Proof. induction s as [|c s IH]; simpl; [reflexivity | now rewrite IH]. Qed.

Lemma app_assoc (a b c : string) : (a +:+ b) +:+ c = a +:+ (b +:+ c).
Proof. induction a as [|x a IH]; simpl; [reflexivity | now rewrite IH]. Qed.

Lemma startswith_spec (p s : string) :
  startswith p s = true ↔ ∃ r, s = p +:+ r.
Proof.
  revert s. induction p as [|a p IH]; intros s; simpl.
  - split; [intros _; now exists s | reflexivity].
  - destruct s as [|b s].
    + split; [discriminate | intros [r Hr]; discriminate].
    + destruct (Ascii.eqb_spec a b) as [->|Hne].
      * rewrite IH. split; intros [r Hr]; exists r; congruence.
      * split; [discriminate | intros [r Hr]; congruence].
Qed.

Lemma drop_prefix_spec (p s r : string) :
  drop_prefix p s = Some r ↔ s = p +:+ r.
Proof.
  revert s. induction p as [|a p IH]; intros s; simpl.
  - split; congruence.
  - destruct s as [|b s]; [split; discriminate|].
    destruct (Ascii.eqb_spec a b) as [->|Hne].
    + rewrite IH. split; congruence.
    + split; [discriminate | congruence].
Qed.

Lemma drop_prefix_app (p r : string) : drop_prefix p (p +:+ r) = Some r.
Proof. now apply drop_prefix_spec. Qed.

Lemma contains_spec (p s : string) : contains p s = true ↔ occurs_in p s.
Proof.
  unfold occurs_in. induction s as [|c s IH].
  - simpl. rewrite orb_false_r, startswith_spec. split.
    + intros [r Hr]. now exists "", r.
    + intros [[|x a] [b H]]; [now exists b | discriminate].
  - change (contains p (String c s))
      with (startswith p (String c s) || contains p s).
    rewrite orb_true_iff, startswith_spec, IH. split.
    + intros [[r Hr] | (a & b & H)].
      * now exists "", r.
      * exists (String c a), b. simpl. now rewrite H.
    + intros ([|x a] & b & H).
      * left. now exists b.
      * right. exists a, b. simpl in H. congruence.
Qed.

(** [search] finds nothing exactly when the pattern fails at every
    position. *)
Lemma search_None {A} (f : string -> option A) (s : string) :
  search f s = None ↔ ∀ p q, s = p +:+ q → f q = None.
Proof.
  induction s as [|c s IH]; simpl.
  - destruct (f "") eqn:E.
    + split; [discriminate|]. intros H. rewrite (H "" "" eq_refl) in E. discriminate.
    + split; [|reflexivity]. intros _ [|x p] q Hq; simpl in Hq; [now subst | discriminate].
  - destruct (f (String c s)) eqn:E.
    + split; [discriminate|]. intros H. rewrite (H "" (String c s) eq_refl) in E. discriminate.
    + rewrite IH. split.
      * intros H [|x p] q Hq; simplify_eq/=; [assumption|].
        now apply (H p).
      * intros H p q ->. now apply (H (String c p)).
Qed.

(** What [search] finds, it finds at some position, and the pattern
    fails at every position before it. *)
Lemma search_Some {A} (f : string -> option A) (s : string) (r : A) :
  search f s = Some r ↔
  ∃ p q, s = p +:+ q ∧ f q = Some r
         ∧ ∀ p1 p2, p = p1 +:+ p2 → p2 ≠ "" → f (p2 +:+ q) = None.
Proof.
  induction s as [|c s IH]; simpl.
  - destruct (f "") eqn:E.
    + split.
      * intros [= ->]. exists "", "". repeat split; [assumption|].
        intros [|??] [|??]; simpl; congruence.
      * intros ([|??] & q & Hs & Hq & _); simplify_eq/=; congruence.
    + split; [discriminate|].
      intros ([|??] & q & Hs & Hq & _); simplify_eq/=; congruence.
  - destruct (f (String c s)) eqn:E.
    + split.
      * intros [= ->]. exists "", (String c s). repeat split; [assumption|].
        intros [|??] [|??]; simpl; congruence.
      * intros ([|x p] & q & Hs & Hq & Hmin); simplify_eq/=; [reflexivity|].
        match type of Hmin with
        | ∀ p1 p2, String ?y ?p = _ → _ =>
            specialize (Hmin "" (String y p) eq_refl ltac:(discriminate))
        end.
        simpl in Hmin. congruence.
    + rewrite IH. split.
      * intros (p & q & -> & Hq & Hmin). exists (String c p), q.
        repeat split; [assumption|].
        intros [|x p1] p2 Hp Hne; simplify_eq/=; [assumption|].
        now apply (Hmin p1).
      * intros ([|x p] & q & Hs & Hq & Hmin); simplify_eq/=.
        exists p, q. repeat split; [assumption|].
        intros p1 p2 -> Hne. now apply (Hmin (String x p1)).
Qed.

Lemma all_digits_app (a b : string) :
  all_digits (a +:+ b) = all_digits a && all_digits b.
Proof.
  induction a as [|c a IH]; simpl; [reflexivity|].
  now rewrite IH, andb_assoc.
Qed.

Lemma span_digits_spec (s d r : string) :
  span_digits s = (d, r) → s = d +:+ r ∧ all_digits d = true ∧ no_digit_ahead r.
Proof.
  revert d r. induction s as [|c s IH]; simpl; intros d r H.
  - injection H as <- <-. now repeat split.
  - destruct (is_digit c) eqn:Ec.
    + destruct (span_digits s) as [d' r'] eqn:E. injection H as <- <-.
      destruct (IH _ _ eq_refl) as (-> & Hd & Hr).
      repeat split; [simpl; now rewrite Ec | assumption].
    + injection H as <- <-. now repeat split.
Qed.

Lemma span_digits_app (d r : string) :
  all_digits d = true → no_digit_ahead r → span_digits (d +:+ r) = (d, r).
Proof.
  induction d as [|c d IH]; simpl; intros Hd Hr.
  - destruct r as [|x r]; [reflexivity|]. simpl in *. now rewrite Hr.
  - apply andb_true_iff in Hd as [-> Hd]. now rewrite IH.
Qed.

Lemma digits1_spec (s d r : string) :
  digits1 s = Some (d, r) ↔
  s = d +:+ r ∧ digit_string d ∧ no_digit_ahead r.
Proof.
  unfold digits1, digit_string. split.
  - destruct (span_digits s) as [d' r'] eqn:E.
    apply span_digits_spec in E as (-> & Hd & Hr).
    destruct d'; [discriminate|]. intros [= <- <-]. now repeat split.
  - intros (-> & [Hne Hd] & Hr). rewrite span_digits_app by assumption.
    destruct d; [congruence | reflexivity].
Qed.

Lemma digits1_None (s : string) :
  digits1 s = None ↔ no_digit_ahead s.
Proof.
  unfold digits1. destruct s as [|c s]; simpl; [tauto|].
  destruct (is_digit c); [|tauto].
  destruct (span_digits s). split; discriminate.
Qed.

End PyStrFacts.

(** ** Facts about the naming function *)

Module NamingFacts.
Import PyStr Spec PyStrFacts Naming.

Lemma digit_string_single (c : ascii) :
  is_digit c = true → digit_string (String c "").
Proof. intros Hc. split; [discriminate | simpl; now rewrite Hc]. Qed.

Lemma digit_string_snoc (d : string) (c : ascii) :
  digit_string d → is_digit c = true → digit_string (d +:+ String c "").
Proof.
  intros [Hne Hd] Hc. split.
  - destruct d; [congruence | discriminate].
  - rewrite all_digits_app, Hd. simpl. now rewrite Hc.
Qed.

Lemma version_token_snoc (t : string) (c : ascii) :
  version_token t → is_digit c = true → version_token (t +:+ String c "").
Proof.
  intros Ht Hc. destruct Ht as [d1 d2 H1 H2 | t d Ht Hd].
  - rewrite !app_assoc. apply vt_pair; [assumption | now apply digit_string_snoc].
  - rewrite !app_assoc. apply vt_more; [assumption | now apply digit_string_snoc].
Qed.

Lemma app_snoc_cons (w : string) (c : ascii) (s : string) :
  w +:+ String c s = (w +:+ String c "") +:+ s.
Proof. now rewrite app_assoc. Qed.

Lemma version_tail_digit (c : ascii) (s : string) :
  is_digit c = true → version_tail (String c s) = String c (version_tail s).
Proof. intros Hc. simpl. now rewrite Hc. Qed.

(** Whatever [version_tail] consumes extends a token to a token. *)
Lemma version_tail_token (s : string) :
  (∀ w, version_token w → version_token (w +:+ version_tail s))
  ∧ (∀ u, digit_string u ∨ version_token u → digit_ahead s →
          version_token (u +:+ "." +:+ version_tail s)).
Proof.
  induction s as [|c s [IHa IHb]]; split.
  - intros w Hw. simpl. now rewrite app_nil_r.
  - intros u _ [].
  - intros w Hw. simpl. destruct (is_digit c) eqn:Ec.
    + rewrite app_snoc_cons. apply IHa. now apply version_token_snoc.
    + destruct (Ascii.eqb_spec c ".") as [->|Hne].
      * destruct s as [|d s']; [now rewrite app_nil_r|].
        destruct (is_digit d) eqn:Ed; [|now rewrite app_nil_r].
        apply (IHb w); [now right | exact Ed].
      * now rewrite app_nil_r.
  - intros u Hu Hc. simpl in Hc. rewrite version_tail_digit by assumption.
    replace (u +:+ "." +:+ String c (version_tail s))
      with ((u +:+ "." +:+ String c "") +:+ version_tail s)
      by now rewrite !app_assoc.
    apply IHa. destruct Hu as [Hu|Hu].
    + apply vt_pair; [assumption | now apply digit_string_single].
    + apply vt_more; [assumption | now apply digit_string_single].
Qed.

Lemma version_tail_prefix (s : string) : ∃ q, s = version_tail s +:+ q.
Proof.
  induction s as [|c s [q IH]]; [now exists ""|].
  simpl. destruct (is_digit c).
  - exists q. exact (f_equal (String c) IH).
  - destruct (Ascii.eqb c "."); [|now exists (String c s)].
    destruct s as [|d s']; [now exists (String c "")|].
    destruct (is_digit d); [|now exists (String c (String d s'))].
    exists q. exact (f_equal (String c) IH).
Qed.

(** What the pattern matches at a position is a token at that position. *)
Lemma version_pattern_at_sound (s v : string) :
  version_pattern_at s = Some v → ∃ q, s = v +:+ q ∧ version_token v.
Proof.
  unfold version_pattern_at. destruct (digits1 s) as [[d1 r]|] eqn:E; [|discriminate].
  apply digits1_spec in E as (-> & Hd1 & _).
  destruct r as [|dot [|c r]]; try discriminate.
  destruct (Ascii.eqb_spec dot ".") as [->|]; [|discriminate].
  rewrite andb_true_l.
  destruct (is_digit c) eqn:Ec; [|discriminate]. intros [= <-].
  destruct (version_tail_prefix (String c r)) as [q Hq].
  exists q. split.
  - rewrite !app_assoc. f_equal. exact (f_equal (String ".") Hq).
  - apply (proj2 (version_tail_token (String c r)) d1); [now left | exact Ec].
Qed.

Lemma version_token_head (t : string) :
  version_token t →
  ∃ d1 c rest, digit_string d1 ∧ is_digit c = true ∧ t = d1 +:+ "." +:+ String c rest.
Proof.
  induction 1 as [d1 d2 H1 H2 | t d Ht (d1 & c & rest & H1 & Hc & ->) Hd].
  - destruct d2 as [|c rest]; [now destruct H2|].
    exists d1, c, rest. repeat split; try apply H1.
    destruct H2 as [_ H2]. simpl in H2. now apply andb_true_iff in H2.
  - exists d1, c, (rest +:+ "." +:+ d). repeat split; try apply H1; [assumption|].
    now rewrite !app_assoc.
Qed.

(** Where a token starts, the pattern matches. *)
Lemma version_pattern_at_complete (t q : string) :
  version_token t → is_Some (version_pattern_at (t +:+ q)).
Proof.
  intros (d1 & c & rest & H1 & Hc & ->)%version_token_head.
  unfold version_pattern_at. rewrite !app_assoc. simpl.
  assert (digits1 (d1 +:+ String "." (String c (rest +:+ q)))
          = Some (d1, String "." (String c (rest +:+ q)))) as ->.
  { apply digits1_spec. repeat split; try apply H1. }
  simpl. rewrite Hc. eexists. reflexivity.
Qed.

Lemma digits_and_dots_app (a b : string) :
  digits_and_dots (a +:+ b) = digits_and_dots a && digits_and_dots b.
Proof.
  induction a as [|c a IH]; simpl; [reflexivity|].
  now rewrite IH, andb_assoc.
Qed.

Lemma digit_string_chars (d : string) : digit_string d → digits_and_dots d = true.
Proof.
  intros [_ Hd]. induction d as [|c d IH]; simpl in *; [reflexivity|].
  apply andb_true_iff in Hd as [-> Hd]. now rewrite IH.
Qed.

(** A token has no other characters than digits and dots. *)
Lemma version_token_chars (t : string) : version_token t → digits_and_dots t = true.
Proof.
  induction 1 as [d1 d2 H1 H2 | t d Ht IH Hd];
    rewrite !digits_and_dots_app; simpl;
    rewrite ?IH, ?digit_string_chars by assumption; reflexivity.
Qed.

Lemma search_version_None (s : string) :
  search version_pattern_at s = None ↔ ¬ has_version_token s.
Proof.
  rewrite search_None. split.
  - intros H (p & t & q & -> & Ht).
    destruct (version_pattern_at_complete t q Ht) as [v Hv].
    rewrite (H p (t +:+ q) eq_refl) in Hv. discriminate.
  - intros H p q ->. destruct (version_pattern_at q) as [v|] eqn:E; [|reflexivity].
    exfalso. apply H. apply version_pattern_at_sound in E as (q' & -> & Hv).
    now exists p, v, q'.
Qed.

Lemma create_libc_filename_raises (rpm_filename : string) (e : exn) :
  create_libc_filename rpm_filename = Raise e →
  search version_pattern_at rpm_filename = None
  ∧ e = ValueError ("Could not extract version from filename: " +:+ rpm_filename).
Proof.
  unfold create_libc_filename.
  destruct (search version_pattern_at rpm_filename); [discriminate|].
  now intros [= <-].
Qed.

Lemma version_pattern_at_no_digit (s : string) :
  no_digit_ahead s → version_pattern_at s = None.
Proof.
  intros H%digits1_None. unfold version_pattern_at. now rewrite H.
Qed.

End NamingFacts.

(** ** Facts about the removal of noise lines *)

Module GadgetFacts.
Import PyStr Spec PyStrFacts GadgetCompiler.

Lemma startswith_nocase_spec (p s : string) :
  startswith_nocase p s = true ↔ ∃ m r, s = m +:+ r ∧ any_case p m.
Proof.
  unfold any_case. revert s. induction p as [|a p IH]; intros s; simpl.
  - split; [intros _; now exists "", s | reflexivity].
  - destruct s as [|b s].
    + split; [discriminate|]. intros ([|??] & r & Hs & Hm); simplify_eq/=.
    + destruct (Ascii.eqb_spec (lower_char a) (lower_char b)) as [Hab|Hab].
      * rewrite IH. split.
        -- intros (m & r & -> & Hm). exists (String b m), r.
           split; [reflexivity|]. simpl. congruence.
        -- intros ([|x m] & r & Hs & Hm); simplify_eq/=. now exists m, r.
      * split; [discriminate|].
        intros ([|x m] & r & Hs & Hm); simplify_eq/=.
Qed.

Lemma matched_search {A} (f : string -> option A) (s : string) :
  matched (search f s) = true ↔ ∃ p q, s = p +:+ q ∧ matched (f q) = true.
Proof.
  destruct (search f s) as [r|] eqn:E; simpl.
  - apply search_Some in E as (p & q & -> & Hq & _). split; [|reflexivity].
    intros _. exists p, q. now rewrite Hq.
  - split; [discriminate|]. intros (p & q & -> & Hq).
    rewrite search_None in E. now rewrite (E p q eq_refl) in Hq.
Qed.

(** The pattern finds a match in a line exactly when the line has a
    marker. *)
Lemma pattern_search_spec (line : string) :
  pattern_search line = true ↔ has_marker line.
Proof.
  unfold pattern_search, has_marker. rewrite matched_search. split.
  - intros (p & q & -> & Hq). unfold noise_at in Hq.
    destruct (startswith_nocase "[LOAD]" q) eqn:E1.
    + apply startswith_nocase_spec in E1 as (m & r & -> & Hm). exists p, m, r. tauto.
    + destruct (startswith_nocase "[INFO]" q) eqn:E2; [|discriminate].
      apply startswith_nocase_spec in E2 as (m & r & -> & Hm). exists p, m, r. tauto.
  - intros (a & m & b & -> & Hm). exists a, (m +:+ b). split; [reflexivity|].
    unfold noise_at.
    assert (startswith_nocase "[LOAD]" (m +:+ b) = true
            ∨ startswith_nocase "[INFO]" (m +:+ b) = true) as [->| ->].
    { destruct Hm as [Hm|Hm]; [left|right]; apply startswith_nocase_spec; now exists m, b. }
    + reflexivity.
    + now rewrite orb_true_r.
Qed.

Lemma remove_junk_from (written lines : list string) :
  foldl (fun written line => if negb (pattern_search line)
                             then (written ++ [line])%list
                             else written) written lines
  = (written ++ remove_junk lines)%list.
Proof.
  unfold remove_junk. revert written.
  induction lines as [|line lines IH]; intros written; simpl.
  - now rewrite List.app_nil_r.
  - rewrite IH, (IH (if negb (pattern_search line) then _ else _)).
    destruct (pattern_search line); simpl; [reflexivity|].
    now rewrite <- List.app_assoc.
Qed.

Lemma remove_junk_cons (line : string) (lines : list string) :
  remove_junk (line :: lines)
  = if pattern_search line then remove_junk lines else line :: remove_junk lines.
Proof.
  unfold remove_junk at 1. simpl. rewrite remove_junk_from.
  now destruct (pattern_search line).
Qed.

Lemma remove_junk_kept (lines : list string) : kept_lines lines (remove_junk lines).
Proof.
  induction lines as [|line lines IH]; [constructor|].
  rewrite remove_junk_cons. destruct (pattern_search line) eqn:E.
  - apply kept_drop; [now apply pattern_search_spec | assumption].
  - apply kept_keep; [|assumption].
    rewrite <- pattern_search_spec. congruence.
Qed.

Lemma kept_lines_unique (lines out1 out2 : list string) :
  kept_lines lines out1 → kept_lines lines out2 → out1 = out2.
Proof.
  intros H1. revert out2. induction H1; intros out2 H2; inversion H2; subst;
    try reflexivity; try contradiction; try (f_equal; auto); auto.
Qed.

Lemma kept_lines_sublist (lines out : list string) :
  kept_lines lines out → sublist out lines.
Proof. induction 1; now constructor. Qed.

End GadgetFacts.

(** C3. For every list of lines, what the noise filter writes back is the
    list without the lines that contain "[LOAD]" or "[INFO]" in some letter
    case: the lines with a marker are dropped, every other line is kept as
    it is and in its place, and no other list has this property. *)
Theorem remove_junk_drops_exactly_the_marked_lines (lines : list string) :
  Spec.kept_lines lines (GadgetCompiler.remove_junk lines)
  ∧ (∀ out, Spec.kept_lines lines out → out = GadgetCompiler.remove_junk lines)
  ∧ sublist (GadgetCompiler.remove_junk lines) lines
  ∧ ∀ line, line ∈ GadgetCompiler.remove_junk lines ↔ line ∈ lines ∧ ¬ Spec.has_marker line.
Proof.
  pose proof (GadgetFacts.remove_junk_kept lines) as Hk.
  split; [exact Hk|]. split.
  - intros out Hout. exact (GadgetFacts.kept_lines_unique _ _ _ Hout Hk).
  - split; [now apply GadgetFacts.kept_lines_sublist|].
    induction Hk as [|l ls out Hl Hk IH|l ls out Hl Hk IH]; intros line.
    + split; [intros H | intros [H _]]; now apply elem_of_nil in H.
    + rewrite !elem_of_cons, IH. split.
      * intros [->|[H1 H2]]; [split; [now left | assumption] | split; [now right | assumption]].
      * intros [[->|H1] H2]; [now left | right; now split].
    + rewrite elem_of_cons, IH. split.
      * intros [H1 H2]. split; [now right | assumption].
      * intros [[->|H1] H2]; [contradiction | now split].
Qed.

Example remove_junk_ropper_output :
  GadgetCompiler.remove_junk
    ["[INFO] Load gadgets from cache"; "[load] loading... 100%"; "";
     "Gadgets"; "======="; "0x0002a3e5: pop rdi; ret;"; "x [Info] y"; "[LOAD"; "[ INFO ]"]
  = [""; "Gadgets"; "======="; "0x0002a3e5: pop rdi; ret;"; "[LOAD"; "[ INFO ]"].
Proof. reflexivity. Qed.

(** ** Facts about the extractor *)

Module ExtractorFacts.
Import PyStr Naming Extractor.

(** A naming failure leaves [extract_with_rpm2cpio] as it is raised, once
    the first process has been started. *)
Lemma extract_with_rpm2cpio_raises (env : extraction_env) (rpm_file output_dir : string)
    (e : exn) :
  rpm2cpio_found env = true →
  create_libc_filename rpm_file = Raise e →
  extract_with_rpm2cpio env rpm_file output_dir = Raise e.
Proof. intros Hf He. unfold extract_with_rpm2cpio. now rewrite Hf, He. Qed.

Lemma extract_loop_app (env : nat → extraction_env) (item : nat)
    (files1 files2 names : list string) :
  extract_loop env item (files1 ++ files2)%list names
  = match extract_loop env item files1 names with
    | Finished names' => extract_loop env (item + List.length files1) files2 names'
    | Crashed e names' => Crashed e names'
    end.
Proof.
  revert item names. induction files1 as [|f files1 IH]; intros item names; simpl.
  - now rewrite Nat.add_0_r.
  - destruct (extract_with_rpm2cpio (env item) f binary_dir) as [r|e]; [|reflexivity].
    destruct (Crawler.truthy r); rewrite IH; now replace (S item + List.length files1)
      with (item + S (List.length files1)) by lia.
Qed.

End ExtractorFacts.

(** C6. The naming function raises exactly when the filename contains no
    version-like token (digits, a dot, digits, optionally repeated), and
    what it raises is a [ValueError]. Nothing catches it: once the first
    process of the extraction has been started, [extract_with_rpm2cpio]
    raises it too, the loop of [extract_all_rpms] ends with it at that item
    with the names collected so far, and a run over files that include this
    one never ends normally. *)
Theorem naming_failure_is_unrecovered (rpm_file : string) :
  ((∃ e, Naming.create_libc_filename rpm_file = Raise e) ↔ ¬ Spec.has_version_token rpm_file)
  ∧ ∀ e, Naming.create_libc_filename rpm_file = Raise e →
      (∃ msg, e = ValueError msg)
      ∧ ∀ (env : nat → Extractor.extraction_env) (item : nat),
          Extractor.rpm2cpio_found (env item) = true →
          Extractor.extract_with_rpm2cpio (env item) rpm_file Extractor.binary_dir = Raise e
          ∧ (∀ files names,
               Extractor.extract_loop env item (rpm_file :: files) names = Crashed e names)
          ∧ (∀ before after, List.length before = item →
               ∃ e' names,
                 Extractor.extract_all_rpms env (before ++ rpm_file :: after)%list
                 = Crashed e' names).
Proof.
  split.
  - rewrite <- NamingFacts.search_version_None. unfold Naming.create_libc_filename.
    destruct (PyStr.search Naming.version_pattern_at rpm_file).
    + split; [intros [e He]; discriminate | discriminate].
    + split; [reflexivity | intros _; eexists; reflexivity].
  - intros e He. split.
    { apply NamingFacts.create_libc_filename_raises in He as [_ ->]. eexists. reflexivity. }
    intros env item Hfound.
    pose proof (ExtractorFacts.extract_with_rpm2cpio_raises
                  (env item) rpm_file Extractor.binary_dir e Hfound He) as Hx.
    split; [exact Hx|]. split.
    + intros files names. simpl. now rewrite Hx.
    + intros before after Hlen. unfold Extractor.extract_all_rpms.
      rewrite ExtractorFacts.extract_loop_app.
      destruct (Extractor.extract_loop env 0 before []) as [names'|e' names'].
      * exists e, names'. simpl. rewrite Hlen. now rewrite Hx.
      * now exists e', names'.
Qed.

Lemma naming_failure_is_unrecovered_witness :
  ¬ Spec.has_version_token "../GlibcDownloads/Fedora/glibc.rpm"
  ∧ ∃ e' names,
      Extractor.extract_all_rpms
        (fun _ => Extractor.ExtractionEnv true true (fun _ => 0%Z) true (fun _ => true))
        ["../GlibcDownloads/Fedora/glibc-2.39-2.fc40.x86_64.rpm";
         "../GlibcDownloads/Fedora/glibc.rpm";
         "../GlibcDownloads/Fedora/glibc-2.40-3.fc41.x86_64.rpm"]
      = Crashed e' names.
Proof.
  destruct (naming_failure_is_unrecovered "../GlibcDownloads/Fedora/glibc.rpm") as [Hiff Hprop].
  split.
  - apply Hiff. eexists. reflexivity.
  - destruct (Hprop _ eq_refl) as [_ Hrun].
    destruct (Hrun (fun _ => Extractor.ExtractionEnv true true (fun _ => 0%Z) true (fun _ => true))
                1 eq_refl) as (_ & _ & Hall).
    exact (Hall ["../GlibcDownloads/Fedora/glibc-2.39-2.fc40.x86_64.rpm"]
                ["../GlibcDownloads/Fedora/glibc-2.40-3.fc41.x86_64.rpm"] eq_refl).
Defined.

Example extract_all_rpms_stops_at_naming_failure :
  Extractor.extract_all_rpms
    (fun _ => Extractor.ExtractionEnv true true (fun _ => 0%Z) true (fun _ => true))
    ["../GlibcDownloads/Fedora/glibc-2.39-2.fc40.x86_64.rpm";
     "../GlibcDownloads/Fedora/glibc.rpm";
     "../GlibcDownloads/Fedora/glibc-2.40-3.fc41.x86_64.rpm"]
  = Crashed (ValueError "Could not extract version from filename: ../GlibcDownloads/Fedora/glibc.rpm")
            ["glibc-2.39-2.fc40.x86_64_libc.so.6"].
Proof. reflexivity. Qed.

Example extract_all_rpms_without_rpm2cpio :
  Extractor.extract_all_rpms
    (fun _ => Extractor.ExtractionEnv false true (fun _ => 0%Z) true (fun _ => true))
    ["../GlibcDownloads/Fedora/glibc.rpm"]
  = Finished [].
Proof. reflexivity. Qed.

(** The name is built from digits and dots only, so no filename at all
    gives "libc-2.39-2.so". *)
Lemma create_libc_filename_never_with_release (rpm_filename : string) :
  Naming.create_libc_filename rpm_filename ≠ Return "libc-2.39-2.so".
Proof.
  unfold Naming.create_libc_filename.
  destruct (PyStr.search Naming.version_pattern_at rpm_filename) as [v|] eqn:E; [|discriminate].
  apply PyStrFacts.search_Some in E as (p & q & _ & Hq & _).
  apply NamingFacts.version_pattern_at_sound in Hq as (q' & _ & Ht).
  apply NamingFacts.version_token_chars in Ht. revert Ht.
  intros Ht Hv. injection Hv as Hv.
  repeat (destruct v as [|? v]; simpl in Hv; [try discriminate Hv | injection Hv as -> Hv]).
  all: vm_compute in Ht; discriminate Ht.
Qed.

(** C2, as the specification states it, fails: the filename of the package
    glibc-2.39-2.fc40.x86_64 contains "2.39-2", and the derived name is
    "libc-2.39.so". *)
Lemma create_libc_filename_release_counterexample :
  PyStr.contains "2.39-2" "glibc-2.39-2.fc40.x86_64.rpm" = true
  ∧ Naming.create_libc_filename "glibc-2.39-2.fc40.x86_64.rpm" = Return "libc-2.39.so"
  ∧ Naming.create_libc_filename "glibc-2.39-2.fc40.x86_64.rpm" ≠ Return "libc-2.39-2.so".
Proof. repeat split. discriminate. Qed.

(** C2, amended. For every filename made of a part without digits, then
    "2.39-2", then anything, the derived name is "libc-2.39.so": the token
    is made of digits and dots, so it ends before the release "-2", and
    nothing of the path before it enters the name. *)
Theorem create_libc_filename_2_39 (before after : string) :
  Spec.no_digits before = true →
  Naming.create_libc_filename (before +:+ "2.39-2" +:+ after) = Return "libc-2.39.so".
Proof.
  intros Hb. unfold Naming.create_libc_filename.
  assert (PyStr.search Naming.version_pattern_at (before +:+ "2.39-2" +:+ after)
          = Some "2.39") as ->; [|reflexivity].
  induction before as [|c before IH].
  - reflexivity.
  - simpl in Hb. apply andb_true_iff in Hb as [Hc Hb].
    apply negb_true_iff in Hc.
    change ((String c before) +:+ "2.39-2" +:+ after)
      with (String c (before +:+ "2.39-2" +:+ after)).
    simpl PyStr.search.
    rewrite NamingFacts.version_pattern_at_no_digit by exact Hc.
    now apply IH.
Qed.

Lemma create_libc_filename_2_39_witness :
  Naming.create_libc_filename
    ("../GlibcDownloads/Fedora/glibc-" +:+ "2.39-2" +:+ ".fc40.x86_64.rpm")
  = Return "libc-2.39.so".
Proof. apply create_libc_filename_2_39. reflexivity. Defined.

(** ** Facts about the crawler *)

Module CrawlerFacts.
Import PyStr Spec PyStrFacts Crawler.

#[local] Arguments drop_prefix : simpl never.
#[local] Arguments digits1 : simpl never.

Lemma digits1_is_Some (d r : string) : digit_string d → is_Some (digits1 (d +:+ r)).
Proof.
  intros [Hne Hd]. destruct d as [|c d]; [congruence|].
  simpl in Hd. apply andb_true_iff in Hd as [Hc _].
  unfold digits1. simpl. rewrite Hc. destruct (span_digits (d +:+ r)). eexists. reflexivity.
Qed.

Lemma digits1_literal (d : string) (c : ascii) (r : string) :
  digit_string d → is_digit c = false →
  digits1 (d +:+ String c r) = Some (d, String c r).
Proof.
  intros Hd Hc. apply digits1_spec.
  split; [reflexivity | split; [assumption | exact Hc]].
Qed.

(** The pattern of the listing matches a text exactly when the text has
    the shape of a version with a disttag. *)
Lemma glibc_pattern_match_spec (text : string) :
  matched (glibc_pattern_match text) = true ↔ version_disttag_text text.
Proof.
  unfold glibc_pattern_match, version_disttag_text. split.
  - destruct (drop_prefix "glibc-" text) as [r0|] eqn:E0; [|discriminate].
    apply drop_prefix_spec in E0 as ->. simpl.
    destruct (digits1 r0) as [[major r1]|] eqn:E1; [|discriminate].
    apply digits1_spec in E1 as (-> & Hmajor & _). simpl.
    destruct (drop_prefix "." r1) as [r2|] eqn:E2; [|discriminate].
    apply drop_prefix_spec in E2 as ->. simpl.
    destruct (digits1 r2) as [[minor r3]|] eqn:E3; [|discriminate].
    apply digits1_spec in E3 as (-> & Hminor & _). simpl.
    destruct (drop_prefix "-" r3) as [r4|] eqn:E4; [|discriminate].
    apply drop_prefix_spec in E4 as ->. simpl.
    destruct (digits1 r4) as [[rel r5]|] eqn:E5; [|discriminate].
    apply digits1_spec in E5 as (-> & Hrel & _). simpl.
    destruct (drop_prefix ".fc" r5) as [r6|] eqn:E6; [|discriminate].
    apply drop_prefix_spec in E6 as ->. simpl.
    destruct (digits1 r6) as [[fc r7]|] eqn:E7; [|discriminate].
    apply digits1_spec in E7 as (-> & Hfc & _). intros _.
    exists major, minor, rel, fc, r7. repeat (split; [assumption|]). reflexivity.
  - intros (major & minor & rel & fc & rest & Hmajor & Hminor & Hrel & Hfc & ->).
    rewrite drop_prefix_app. simpl.
    rewrite (digits1_literal major "." _ Hmajor eq_refl). simpl.
    rewrite (digits1_literal minor "-" _ Hminor eq_refl). simpl.
    rewrite (digits1_literal rel "." _ Hrel eq_refl). simpl.
    destruct (digits1_is_Some fc rest Hfc) as [[d r] ->]. reflexivity.
Qed.

Lemma keep_lowest_lookup (dict : catalog) (k' : string * string) (e : entry)
    (k : string * string) :
  keep_lowest dict (k', e) !! k
  = if decide (k' = k)
    then match dict !! k with
         | None => Some e
         | Some old => if (release e <? release old)%N then Some e else Some old
         end
    else dict !! k.
Proof.
  unfold keep_lowest. case_decide as Hk.
  - subst k'. destruct (dict !! k) as [old|] eqn:E.
    + destruct (release e <? release old)%N; [apply lookup_insert_eq | exact E].
    + apply lookup_insert_eq.
  - destruct (dict !! k') as [old|]; [destruct (release e <? release old)%N|];
      rewrite ?lookup_insert_ne by assumption; reflexivity.
Qed.

(** The catalog after a sequence of rows: a key of no row is absent, and
    the entry of any other key is its first row of lowest release. *)
Lemma keep_lowest_rows (rows : list ((string * string) * entry)) (k : string * string) :
  match foldl keep_lowest ∅ rows !! k with
  | Some e => first_lowest rows k e
  | None => ∀ e, (k, e) ∉ rows
  end.
Proof.
  induction rows as [|[k' e'] rows IH] using rev_ind.
  - simpl. rewrite lookup_empty. intros e He. now apply elem_of_nil in He.
  - rewrite foldl_snoc, keep_lowest_lookup. case_decide as Hk.
    + subst k'. destruct (foldl keep_lowest ∅ rows !! k) as [old|].
      * destruct IH as (before & after & -> & Hb & Ha).
        destruct (N.ltb_spec (release e') (release old)) as [Hlt|Hge].
        -- exists (before ++ (k, old) :: after)%list, []. split; [reflexivity|]. split.
           ++ intros e'' He''. rewrite elem_of_app, elem_of_cons in He''.
              destruct He'' as [H|[H|H]].
              ** specialize (Hb _ H). lia.
              ** injection H as ->. exact Hlt.
              ** specialize (Ha _ H). lia.
           ++ intros e'' He''. now apply elem_of_nil in He''.
        -- exists before, (after ++ [(k, e')])%list. split; [now rewrite <- List.app_assoc|].
           split; [exact Hb|].
           intros e'' He''. rewrite elem_of_app, list_elem_of_singleton in He''.
           destruct He'' as [H|H]; [now apply Ha | injection H as ->; exact Hge].
      * exists rows, []. split; [reflexivity|]. split.
        -- intros e'' He''. now apply IH in He''.
        -- intros e'' He''. now apply elem_of_nil in He''.
    + destruct (foldl keep_lowest ∅ rows !! k) as [e|].
      * destruct IH as (before & after & -> & Hb & Ha).
        exists before, (after ++ [(k', e')])%list. split; [now rewrite <- List.app_assoc|].
        split; [exact Hb|].
        intros e'' He''. rewrite elem_of_app, list_elem_of_singleton in He''.
        destruct He'' as [H|H]; [now apply Ha | congruence].
      * intros e He. rewrite elem_of_app, list_elem_of_singleton in He.
        destruct He as [H|H]; [now apply IH in H | congruence].
Qed.

Lemma first_lowest_In (rows : list ((string * string) * entry)) (k : string * string)
    (e : entry) :
  first_lowest rows k e →
  (k, e) ∈ rows ∧ ∀ e', (k, e') ∈ rows → (release e ≤ release e')%N.
Proof.
  intros (before & after & -> & Hb & Ha). split.
  - rewrite elem_of_app, elem_of_cons. tauto.
  - intros e' He'. rewrite elem_of_app, elem_of_cons in He'.
    destruct He' as [H|[H|H]].
    + specialize (Hb _ H). lia.
    + injection H as ->. lia.
    + now apply Ha.
Qed.

Lemma filter_none {A} (P : A → Prop) `{∀ x, Decision (P x)} (l : list A) :
  (∀ x, x ∈ l → ¬ P x) → filter P l = [].
Proof.
  induction l as [|x l IH]; intros Hl; [reflexivity|].
  rewrite filter_cons, decide_False by (apply Hl; left).
  apply IH. intros y Hy. apply Hl. now right.
Qed.

(** A map holds exactly one entry under a key that it has. *)
Lemma one_entry_per_key (dict : catalog) (k : string * string) (e : entry) :
  dict !! k = Some e →
  filter (λ kv, kv.1 = k) (map_to_list dict) = [(k, e)].
Proof.
  intros Hk.
  assert (∀ l : list ((string * string) * entry),
            NoDup l.*1 → (k, e) ∈ l → filter (λ kv, kv.1 = k) l = [(k, e)]) as Hl.
  { induction l as [|[k' e'] l IH]; intros Hnd Hin; [now apply elem_of_nil in Hin|].
    rewrite fmap_cons in Hnd. apply NoDup_cons in Hnd as [Hk' Hnd].
    rewrite filter_cons. simpl. apply elem_of_cons in Hin as [Heq|Hin].
    - injection Heq as <- <-. rewrite decide_True by reflexivity. f_equal.
      apply filter_none. intros [k2 e2] H2 Hk2.
      simpl in *. subst k2. apply Hk'. apply list_elem_of_fmap. now exists (k, e2).
    - rewrite decide_False; [now apply IH|].
      intros ->. apply Hk'. apply list_elem_of_fmap. now exists (k, e). }
  apply Hl; [apply NoDup_fst_map_to_list | now apply elem_of_map_to_list].
Qed.

Lemma candidate_matches (url : string) (link : anchor) (row : (string * string) * entry) :
  candidate url link = Some row → matched (glibc_pattern_match (visible_text link)) = true.
Proof.
  unfold candidate, visible_text.
  now destruct (glibc_pattern_match (strip (a_text link))).
Qed.

Lemma scrape_link_eq (url : string) (found : bool) (dict : catalog) (link : anchor) :
  scrape_link url (found, dict) link
  = (found || matched (glibc_pattern_match (visible_text link)),
     from_option (keep_lowest dict) dict (candidate url link)).
Proof.
  unfold scrape_link, visible_text.
  destruct (glibc_pattern_match (strip (a_text link))) as [m|] eqn:E; simpl.
  - rewrite orb_true_r. now destruct (candidate url link).
  - rewrite orb_false_r. unfold candidate. now rewrite E.
Qed.

(** What the loop over the links of a page computes. *)
Lemma scrape_links_eq (url : string) (links : list anchor) (found : bool) (dict : catalog) :
  foldl (scrape_link url) (found, dict) links
  = (found || existsb (λ link, matched (glibc_pattern_match (visible_text link))) links,
     foldl keep_lowest dict (omap (candidate url) links)).
Proof.
  revert found dict. induction links as [|link links IH]; intros found dict.
  - simpl. now rewrite orb_false_r.
  - change (foldl (scrape_link url) (found, dict) (link :: links))
      with (foldl (scrape_link url) (scrape_link url (found, dict) link) links).
    rewrite scrape_link_eq, IH. simpl. rewrite orb_assoc. f_equal.
    now destruct (candidate url link).
Qed.

End CrawlerFacts.

(** C1. For every sequence of rows that reach the catalog and every key
    that occurs among them, the catalog built from the empty one holds
    exactly one entry under that key; the entry is one of the rows of the
    key, and its release is the lowest among all rows of the key. *)
Theorem dedup_keeps_the_lowest_release
    (rows : list ((string * string) * Crawler.entry)) (k : string * string) :
  (∃ e0, (k, e0) ∈ rows) →
  ∃ e, foldl Crawler.keep_lowest ∅ rows !! k = Some e
       ∧ filter (λ kv, kv.1 = k) (map_to_list (foldl Crawler.keep_lowest ∅ rows)) = [(k, e)]
       ∧ (k, e) ∈ rows
       ∧ ∀ e', (k, e') ∈ rows → (Crawler.release e ≤ Crawler.release e')%N.
Proof.
  intros [e0 He0]. pose proof (CrawlerFacts.keep_lowest_rows rows k) as H.
  destruct (foldl Crawler.keep_lowest ∅ rows !! k) as [e|] eqn:E.
  - exists e. split; [reflexivity|]. split; [now apply CrawlerFacts.one_entry_per_key|].
    now apply CrawlerFacts.first_lowest_In.
  - now apply H in He0.
Qed.

Lemma dedup_keeps_the_lowest_release_witness :
  ∃ e, foldl Crawler.keep_lowest ∅
         [(("2.39", "fc40"), Crawler.Entry 5 "2400005" "glibc-2.39-5.fc40" "page1");
          (("2.40", "fc41"), Crawler.Entry 1 "2500001" "glibc-2.40-1.fc41" "page1");
          (("2.39", "fc40"), Crawler.Entry 3 "2400003" "glibc-2.39-3.fc40" "page2")]
       !! ("2.39", "fc40") = Some e
       ∧ Crawler.release e = 3%N.
Proof.
  destruct (dedup_keeps_the_lowest_release
              [(("2.39", "fc40"), Crawler.Entry 5 "2400005" "glibc-2.39-5.fc40" "page1");
               (("2.40", "fc41"), Crawler.Entry 1 "2500001" "glibc-2.40-1.fc41" "page1");
               (("2.39", "fc40"), Crawler.Entry 3 "2400003" "glibc-2.39-3.fc40" "page2")]
              ("2.39", "fc40"))
    as (e & He & _ & _ & Hmin).
  - eexists. left.
  - exists e. split; [exact He|].
    vm_compute in He. injection He as <-. reflexivity.
Defined.

(** C10. A row whose release equals the one stored under its key leaves the
    catalog as it is, whatever the catalog; so the entry that a sequence of
    rows leaves under a key is the first row of that key with the lowest
    release: build id, display name and source page are those of that row,
    every row of the key before it has a higher release and no row of the
    key after it has a lower one. *)
Theorem equal_release_keeps_the_first :
  (∀ (dict : gmap (string * string) Crawler.entry) k old e,
     dict !! k = Some old → Crawler.release e = Crawler.release old →
     Crawler.keep_lowest dict (k, e) = dict)
  ∧ (∀ rows k e,
       foldl Crawler.keep_lowest ∅ rows !! k = Some e → Spec.first_lowest rows k e).
Proof.
  split.
  - intros dict k old e Hk He. unfold Crawler.keep_lowest. rewrite Hk.
    rewrite He, N.ltb_irrefl. reflexivity.
  - intros rows k e He. pose proof (CrawlerFacts.keep_lowest_rows rows k) as H.
    now rewrite He in H.
Qed.

Lemma equal_release_keeps_the_first_witness :
  Crawler.keep_lowest
    {[ ("2.39", "fc40") := Crawler.Entry 3 "2400003" "glibc-2.39-3.fc40" "page1" ]}
    (("2.39", "fc40"), Crawler.Entry 3 "2400099" "glibc-2.39-3.fc40" "page2")
  = {[ ("2.39", "fc40") := Crawler.Entry 3 "2400003" "glibc-2.39-3.fc40" "page1" ]}
  ∧ Spec.first_lowest
      [(("2.39", "fc40"), Crawler.Entry 3 "2400003" "glibc-2.39-3.fc40" "page1");
       (("2.39", "fc40"), Crawler.Entry 3 "2400099" "glibc-2.39-3.fc40" "page2")]
      ("2.39", "fc40") (Crawler.Entry 3 "2400003" "glibc-2.39-3.fc40" "page1").
Proof.
  destruct equal_release_keeps_the_first as [Hkeep Hfirst]. split.
  - apply (Hkeep _ _ (Crawler.Entry 3 "2400003" "glibc-2.39-3.fc40" "page1"));
      [apply lookup_singleton_eq | reflexivity].
  - apply Hfirst. reflexivity.
Defined.

Example scrape_two_releases_of_one_key :
  Crawler.scrape_glibc_versions_from_page
    (Some [Crawler.Anchor "  glibc-2.39-5.fc40 " "buildinfo?buildID=2400005";
           Crawler.Anchor "glibc-2.39-3.fc40" "buildinfo?buildID=2400003";
           Crawler.Anchor "glibc-2.39-3.fc40" "buildinfo?buildID=2400099";
           Crawler.Anchor "glibc-2.39.9000-1.eln130" "buildinfo?buildID=2400100"])
    "page1" ∅
  = (true, {[ ("2.39", "fc40") := Crawler.Entry 3 "2400003" "glibc-2.39-3.fc40" "page1" ]}).
Proof. vm_compute. reflexivity. Qed.

(** ** Facts about pagination *)

Module PaginationFacts.
Import PyStr Spec PyStrFacts Crawler CrawlerFacts.

Lemma is_upper_lower_char (c : ascii) : is_upper (lower_char c) = false.
Proof. destruct c as [[] [] [] [] [] [] [] []]; reflexivity. Qed.

(** A lowered string holds no capital letter. *)
Lemma lower_no_upper (s a b : string) (c : ascii) :
  lower s = a +:+ String c b → is_upper c = false.
Proof.
  revert a. induction s as [|x s IH]; intros [|y a] H; simplify_eq/=.
  - apply is_upper_lower_char.
  - now apply (IH a).
Qed.

(** The third test of a next-page link never holds. *)
Lemma next_never_in_lower (text : string) : contains "Next" (lower text) = false.
Proof.
  destruct (contains "Next" (lower text)) eqn:E; [|reflexivity].
  apply contains_spec in E as (a & b & H).
  now apply lower_no_upper in H.
Qed.

Lemma contains_three_arrows (text : string) :
  contains ">>>" text = true → contains ">>" text = true.
Proof.
  rewrite !contains_spec. intros (a & b & ->). now exists a, (String ">" b).
Qed.

(** A link counts as a next-page link exactly when its text holds two
    arrows. *)
Lemma is_next_link_arrows (link : anchor) :
  is_next_link link = contains ">>" (visible_text link).
Proof.
  unfold is_next_link, visible_text. rewrite next_never_in_lower, orb_false_r.
  destruct (contains ">>>" (strip (a_text link))) eqn:E; [|reflexivity].
  symmetry. now apply contains_three_arrows.
Qed.

Section Loop.
Variable lib : urllib.
Variable http_get : nat -> string -> option (list anchor).

Lemma no_match_no_rows (url : string) (links : list anchor) :
  (∀ link, link ∈ links → ¬ version_disttag_text (visible_text link)) →
  existsb (λ link, matched (glibc_pattern_match (visible_text link))) links = false
  ∧ omap (candidate url) links = [].
Proof.
  induction links as [|link links IH]; intros H; [now split|].
  destruct IH as [IH1 IH2]; [intros l Hl; apply H; now right|].
  assert (matched (glibc_pattern_match (visible_text link)) = false) as Hm.
  { destruct (matched (glibc_pattern_match (visible_text link))) eqn:E; [|reflexivity].
    apply glibc_pattern_match_spec in E. exfalso. apply (H link); [now left | exact E]. }
  split; simpl.
  - now rewrite Hm, IH1.
  - destruct (candidate url link) as [row|] eqn:E; [|exact IH2].
    apply candidate_matches in E. congruence.
Qed.

(** A page without a matching text ends the pass at the first test,
    with the catalog untouched and after a single request. *)
Lemma crawl_iter_no_match (st : crawl_state) (links : list anchor) :
  http_get (List.length (requests st)) (current_url st) = Some links →
  (∀ link, link ∈ links → ¬ version_disttag_text (visible_text link)) →
  crawl_iter lib http_get st = Break (stopped_at st).
Proof.
  intros Hget Hno. unfold crawl_iter, scrape_glibc_versions_from_page.
  rewrite Hget, scrape_links_eq.
  destruct (no_match_no_rows (current_url st) links Hno) as [-> ->]. reflexivity.
Qed.


Lemma crawl_loop_break (fuel : nat) (st st' : crawl_state) :
  loop_guard st = true → crawl_iter lib http_get st = Break st' →
  crawl_loop lib http_get (S fuel) st = Some (Finished st').
Proof. intros Hg Hi. simpl. now rewrite Hg, Hi. Qed.

Lemma crawl_loop_continue (fuel : nat) (st st' : crawl_state) :
  loop_guard st = true → crawl_iter lib http_get st = Continue st' →
  crawl_loop lib http_get (S fuel) st = crawl_loop lib http_get fuel st'.
Proof. intros Hg Hi. simpl. now rewrite Hg, Hi. Qed.

(** What the loop returns from a state that the crawl reaches, it
    returns from the start, given enough passes. *)
Lemma crawl_loop_reaches (st0 st : crawl_state) (out : outcome crawl_state) :
  reaches lib http_get st0 st →
  (∃ fuel0, ∀ fuel, (fuel0 ≤ fuel)%nat → crawl_loop lib http_get fuel st = Some out) →
  ∃ fuel0, ∀ fuel, (fuel0 ≤ fuel)%nat → crawl_loop lib http_get fuel st0 = Some out.
Proof.
  induction 1 as [|st' st'' Hr IH Hg Hi]; [trivial|].
  intros [fuel0 Hout]. apply IH. exists (S fuel0). intros fuel Hfuel.
  destruct fuel as [|fuel]; [lia|].
  rewrite (crawl_loop_continue fuel st' st'' Hg Hi). apply Hout. lia.
Qed.

(** The rows that the page of a pass brings. *)
Lemma crawl_iter_catalog (st : crawl_state) :
  version_dict (iteration_state (crawl_iter lib http_get st))
  = foldl keep_lowest (version_dict st)
      (match http_get (List.length (requests st)) (current_url st) with
       | Some links => omap (candidate (current_url st)) links
       | None => []
       end).
Proof.
  unfold crawl_iter, scrape_glibc_versions_from_page.
  destruct (http_get (List.length (requests st)) (current_url st)) as [links|];
    [rewrite scrape_links_eq|]; simpl; repeat case_match; reflexivity.
Qed.

(** The catalog that the crawl returns is the one it started from with
    rows added by [keep_lowest], one after the other. *)
Lemma crawl_loop_catalog (fuel : nat) (st : crawl_state) (out : outcome crawl_state) :
  crawl_loop lib http_get fuel st = Some out →
  ∃ rows, version_dict (outcome_state out) = foldl keep_lowest (version_dict st) rows.
Proof.
  revert st. induction fuel as [|fuel IH]; intros st; simpl.
  - destruct (loop_guard st); [discriminate|]. intros [= <-]. now exists [].
  - destruct (loop_guard st); [|intros [= <-]; now exists []].
    pose proof (crawl_iter_catalog st) as Hrows.
    destruct (crawl_iter lib http_get st) as [st'|st'|e st']; simpl in Hrows.
    + intros Hout. destruct (IH st' Hout) as [rows Hr].
      eexists. rewrite Hr, Hrows, <- foldl_app. reflexivity.
    + intros [= <-]. eexists. exact Hrows.
    + intros [= <-]. eexists. exact Hrows.
Qed.

(** With a numeric [buildStart] in the query of the current URL, the
    constructed URL carries that number plus 50. *)
Lemma construct_next_url_increments (current_url v : string) (values : list string)
    (current_start : Z) :
  dict_get "buildStart" (parse_qs lib (query (urlparse lib current_url))) = Some (v :: values) →
  py_int v = Some current_start →
  construct_next_url lib current_url
  = Return (scheme (urlparse lib current_url) +:+ "://" +:+ netloc (urlparse lib current_url)
            +:+ path (urlparse lib current_url) +:+ "?"
            +:+ urlencode lib
                  (dict_set "buildStart" [py_str (current_start + 50)]
                     (parse_qs lib (query (urlparse lib current_url))))
            +:+ fragment (urlparse lib current_url)).
Proof. intros Hq Hv. unfold construct_next_url. now rewrite Hq, Hv. Qed.

End Loop.

End PaginationFacts.

(** C8. In every crawl, when the loop is at a page, the page is fetched and
    no link text of it matches the version pattern, the crawl is over: with
    enough passes granted the function returns, the catalog it returns is
    the one accumulated before that page, the page count includes that
    page, and the request for that page is the last one made. *)
Theorem crawl_stops_at_a_page_without_versions
    (lib : Crawler.urllib) (http_get : nat → string → option (list Crawler.anchor))
    (st : Crawler.crawl_state) (links : list Crawler.anchor) :
  Crawler.reaches lib http_get Crawler.initial_state st →
  Crawler.loop_guard st = true →
  http_get (List.length (Crawler.requests st)) (Crawler.current_url st) = Some links →
  (∀ link, link ∈ links → ¬ Spec.version_disttag_text (Spec.visible_text link)) →
  ∃ fuel0, ∀ fuel, (fuel0 ≤ fuel)%nat →
    Crawler.get_glibc_versions_all_pages lib http_get fuel = Some (Finished (Spec.stopped_at st)).
Proof.
  intros Hreach Hguard Hget Hno. unfold Crawler.get_glibc_versions_all_pages.
  apply (PaginationFacts.crawl_loop_reaches lib http_get _ st _ Hreach).
  exists 1. intros [|fuel] Hfuel; [lia|].
  apply PaginationFacts.crawl_loop_break; [exact Hguard|].
  now apply (PaginationFacts.crawl_iter_no_match lib http_get st links).
Qed.

Lemma crawl_stops_at_a_page_without_versions_witness :
  ∃ fuel0, ∀ fuel, (fuel0 ≤ fuel)%nat →
    Crawler.get_glibc_versions_all_pages Fixtures.plain_urllib Fixtures.two_pages fuel
    = Some (Finished (Spec.stopped_at Fixtures.at_second_page)).
Proof.
  apply (crawl_stops_at_a_page_without_versions
           Fixtures.plain_urllib Fixtures.two_pages Fixtures.at_second_page
           Fixtures.second_page).
  - eapply Crawler.reaches_next; [apply Crawler.reaches_here | reflexivity |].
    vm_compute. reflexivity.
  - vm_compute. reflexivity.
  - reflexivity.
  - intros link Hin Hm. apply CrawlerFacts.glibc_pattern_match_spec in Hm.
    repeat (apply elem_of_cons in Hin as [->|Hin]; [vm_compute in Hm; discriminate|]).
    now apply elem_of_nil in Hin.
Defined.

Example two_pages_crawl :
  Crawler.get_glibc_versions_all_pages Fixtures.plain_urllib Fixtures.two_pages 2
  = Some (Finished
            (Crawler.CrawlState
               {[ ("2.39", "fc40")
                  := Crawler.Entry 3 "2400003" "glibc-2.39-3.fc40" Crawler.base_url ]}
               {[ Crawler.base_url; "page2" ]} "page2" 2
               [Crawler.base_url; Crawler.base_url; "page2"])).
Proof. vm_compute. reflexivity. Qed.



(** C7. The text "Next", in whatever case, is not taken for a next-page
    link: the test looks for the capitalised word in the lowered text. With
    such a link alone on the page the next URL is the constructed one, and
    in general a link is taken exactly when its text holds two arrows. *)
Theorem next_text_is_not_followed (lib : Crawler.urllib) (current_url href : string) :
  Crawler.find_next_link lib current_url [Crawler.Anchor "Next" href] = None
  ∧ Crawler.find_next_link lib current_url [Crawler.Anchor "next" href] = None
  ∧ Crawler.find_next_link lib current_url [Crawler.Anchor "NEXT" href] = None
  ∧ Crawler.next_page_url lib current_url [Crawler.Anchor "Next" href]
    = Crawler.construct_next_url lib current_url
  ∧ ∀ link, Crawler.is_next_link link = PyStr.contains ">>" (Spec.visible_text link).
Proof.
  repeat split. apply PaginationFacts.is_next_link_arrows.
Qed.

Example arrows_are_followed :
  Crawler.next_page_url Fixtures.plain_urllib Crawler.base_url
    [Crawler.Anchor "Next" "page2"; Crawler.Anchor " >> " "page3"; Crawler.Anchor ">>>" "page4"]
  = Return "page3".
Proof. reflexivity. Qed.

(** ** Facts about the resolver *)

Module ResolverFacts.
Import PyStr Spec PyStrFacts Crawler Resolver.

Lemma takes_true (rpm_urls : gmap string string) (href arch : string) :
  takes rpm_urls href arch = true ↔
  contains ("/" +:+ arch +:+ "/") href = true ∧ rpm_urls !! arch = None
  ∧ main_package_search arch href = true.
Proof.
  unfold takes. rewrite !andb_true_iff, bool_decide_eq_true. tauto.
Qed.

Lemma assign_arch_cons (arch : string) (archs : list string) (href : string)
    (rpm_urls : gmap string string) :
  assign_arch (arch :: archs) href rpm_urls
  = if takes rpm_urls href arch
    then <[arch := href]> rpm_urls
    else assign_arch archs href rpm_urls.
Proof.
  unfold takes. simpl.
  destruct (contains _ href && bool_decide _);
    destruct (main_package_search arch href); reflexivity.
Qed.

(** The loop over the architectures gives the link to the first
    architecture that takes it, if there is one. *)
Lemma assign_arch_spec (archs : list string) (href : string) (rpm_urls : gmap string string) :
  (∃ l1 arch l2,
      archs = (l1 ++ arch :: l2)%list
      ∧ takes rpm_urls href arch = true
      ∧ (∀ a, a ∈ l1 → takes rpm_urls href a = false)
      ∧ assign_arch archs href rpm_urls = <[arch := href]> rpm_urls)
  ∨ ((∀ a, a ∈ archs → takes rpm_urls href a = false)
     ∧ assign_arch archs href rpm_urls = rpm_urls).
Proof.
  induction archs as [|arch archs IH].
  - right. split; [|reflexivity]. intros a Ha. now apply elem_of_nil in Ha.
  - rewrite assign_arch_cons. destruct (takes rpm_urls href arch) eqn:Et.
    + left. exists [], arch, archs. repeat split; [assumption|].
      intros a Ha. now apply elem_of_nil in Ha.
    + destruct IH as [(l1 & a0 & l2 & -> & Ht & Hl1 & ->)|[Hall ->]].
      * left. exists (arch :: l1), a0, l2. repeat split; [assumption|].
        intros a [->|Ha]%elem_of_cons; [assumption | now apply Hl1].
      * right. split; [|reflexivity].
        intros a [->|Ha]%elem_of_cons; [assumption | now apply Hall].
Qed.

Lemma first_free_match_extend (links : list anchor) (link : anchor)
    (m m' : gmap string string) (arch href : string) :
  (∀ a h, m !! a = Some h → m' !! a = Some h) →
  first_free_match links m arch href →
  first_free_match (links ++ [link]) m' arch href.
Proof.
  intros Hext (before & l & after & -> & Hh & Hm & Hb).
  exists before, l, (after ++ [link])%list.
  split; [now rewrite <- List.app_assoc|]. repeat split; [assumption..|].
  intros l' Hl' Hm'. destruct (Hb l' Hl' Hm') as (a' & He & Ha'). eauto.
Qed.

(** The map after the links of a page. *)
Lemma resolve_links_spec (links : list anchor) :
  let rpm_urls := foldl resolve_link ∅ links in
  (∀ arch href, rpm_urls !! arch = Some href →
     arch ∈ target_architectures ∧ first_free_match links rpm_urls arch href)
  ∧ (∀ arch, arch ∈ target_architectures → rpm_urls !! arch = None →
       ∀ l, l ∈ links → link_matches arch (a_href l) = true →
            ∃ arch', earlier arch' arch ∧ rpm_urls !! arch' = Some (a_href l)).
Proof.
  induction links as [|link links IH] using rev_ind; simpl.
  - split.
    + intros arch href H. now rewrite lookup_empty in H.
    + intros arch _ _ l Hl. now apply elem_of_nil in Hl.
  - rewrite foldl_snoc. set (m := foldl resolve_link ∅ links) in *.
    destruct IH as [IH1 IH2]. unfold resolve_link.
    destruct (is_glibc_rpm (a_href link)) eqn:Erpm.
    + destruct (assign_arch_spec target_architectures (a_href link) m)
        as [(l1 & a & l2 & Htargets & Ht & Hl1 & ->)|[Hall ->]].
      * apply takes_true in Ht as (Hseg & Hfree & Hmain).
        assert (∀ a' h', m !! a' = Some h' → <[a := a_href link]> m !! a' = Some h') as Hext.
        { intros a' h' H. rewrite lookup_insert_ne; [assumption | congruence]. }
        split.
        -- intros arch href H. destruct (decide (a = arch)) as [<-|Hne].
           ++ rewrite lookup_insert_eq in H. injection H as <-. split.
              ** rewrite Htargets, elem_of_app, elem_of_cons. tauto.
              ** exists links, link, []. repeat split.
                 --- unfold link_matches. now rewrite Erpm, Hseg, Hmain.
                 --- intros l Hl Hm.
                     destruct (IH2 a) with (l := l) as (a' & He & Ha'); try assumption.
                     { rewrite Htargets, elem_of_app, elem_of_cons. tauto. }
                     eauto.
           ++ rewrite lookup_insert_ne in H by assumption.
              destruct (IH1 _ _ H) as [Hin Hff]. split; [assumption|].
              now apply (first_free_match_extend links link m).
        -- intros arch Harch Hnone l Hl Hm.
           assert (a ≠ arch) as Hne.
           { intros <-. now rewrite lookup_insert_eq in Hnone. }
           rewrite lookup_insert_ne in Hnone by assumption.
           apply elem_of_app in Hl as [Hl|Hl].
           ++ destruct (IH2 arch Harch Hnone l Hl Hm) as (a' & He & Ha'). eauto.
           ++ apply list_elem_of_singleton in Hl as ->.
              exists a. split; [|apply lookup_insert_eq].
              exists l1, l2. split; [assumption|].
              rewrite Htargets, elem_of_app, elem_of_cons in Harch.
              destruct Harch as [Hin|[->|Hin]]; [|congruence|assumption].
              apply Hl1 in Hin. unfold link_matches in Hm.
              apply andb_true_iff in Hm as [[_ Hs]%andb_true_iff Hp].
              assert (takes m (a_href link) arch = true) as Htrue
                by (apply takes_true; auto).
              congruence.
      * split.
        -- intros arch href H. destruct (IH1 _ _ H) as [Hin Hff]. split; [assumption|].
           now apply (first_free_match_extend links link m).
        -- intros arch Harch Hnone l Hl Hm.
           apply elem_of_app in Hl as [Hl|Hl]; [now apply IH2|].
           apply list_elem_of_singleton in Hl as ->.
           unfold link_matches in Hm.
           apply andb_true_iff in Hm as [[_ Hs]%andb_true_iff Hp].
           assert (takes m (a_href link) arch = true) as Htrue
             by (apply takes_true; auto).
           rewrite (Hall arch Harch) in Htrue. discriminate.
    + split.
      * intros arch href H. destruct (IH1 _ _ H) as [Hin Hff]. split; [assumption|].
        now apply (first_free_match_extend links link m).
      * intros arch Harch Hnone l Hl Hm.
        apply elem_of_app in Hl as [Hl|Hl]; [now apply IH2|].
        apply list_elem_of_singleton in Hl as ->.
        unfold link_matches in Hm. rewrite Erpm in Hm. discriminate.
Qed.

Lemma is_glibc_rpm_excluded (href exclude : string) :
  is_glibc_rpm href = true → exclude ∈ excluded → contains exclude href = false.
Proof.
  unfold is_glibc_rpm. intros [_ H]%andb_true_iff Hin.
  apply negb_true_iff in H.
  destruct (contains exclude href) eqn:E; [|reflexivity].
  rewrite <- H. symmetry. apply existsb_exists. exists exclude.
  split; [now apply list_elem_of_In | assumption].
Qed.

End ResolverFacts.

Example resolve_build_page :
  Resolver.extract_rpm_urls_from_buildinfo (Some Fixtures.build_page)
  = {[ "aarch64" := "https://kojipkgs.fedoraproject.org/packages/glibc/2.39/2.fc40/aarch64/glibc-2.39-2.fc40.aarch64.rpm";
       "x86_64" := "https://kojipkgs.fedoraproject.org/packages/glibc/2.39/2.fc40/x86_64/glibc-2.39-2.fc40.x86_64.rpm" ]}.
Proof. vm_compute. reflexivity. Qed.

(** C4, as the specification states it, fails: on a page whose first link
    matches both aarch64 and x86_64, that link goes to aarch64 and the loop
    over the architectures ends there, so x86_64 gets the second link,
    although the first link of the page that matches x86_64 is the first
    one. *)
Lemma resolver_first_match_counterexample :
  Resolver.extract_rpm_urls_from_buildinfo (Some Fixtures.ambiguous_page) !! "x86_64"
  = Some "https://koji.example.org/x86_64/glibc-2.39-2.fc40.x86_64.rpm"
  ∧ Fixtures.ambiguous_page !! 0
    = Some (Crawler.Anchor "download" "https://koji.example.org/aarch64/glibc-2.39-2.fc40.aarch64.rpm/x86_64/glibc-2.39-2.fc40.x86_64.rpm")
  ∧ Spec.link_matches "x86_64"
      "https://koji.example.org/aarch64/glibc-2.39-2.fc40.aarch64.rpm/x86_64/glibc-2.39-2.fc40.x86_64.rpm"
    = true.
Proof. vm_compute. repeat split. Qed.

(** C4, amended. For every build page and every architecture that the
    resolver maps to a URL: the architecture is one of aarch64, i686 and
    x86_64; the URL contains none of the excluded substrings (debuginfo,
    debugsource, devel, headers, static, utils); and the URL is the target
    of a link of the page that matches the architecture, such that every
    link before it that matches the architecture too is the URL of an
    architecture that comes before in the list of targets. The map gives
    an architecture one URL at most. *)
Theorem resolver_takes_first_free_match
    (links : list Crawler.anchor) (arch href : string) :
  Resolver.extract_rpm_urls_from_buildinfo (Some links) !! arch = Some href →
  arch ∈ Resolver.target_architectures
  ∧ (∀ exclude, exclude ∈ Resolver.excluded → PyStr.contains exclude href = false)
  ∧ Spec.first_free_match links (Resolver.extract_rpm_urls_from_buildinfo (Some links))
      arch href.
Proof.
  intros H. simpl in *.
  destruct (ResolverFacts.resolve_links_spec links) as [H1 _].
  destruct (H1 arch href H) as [Hin Hff]. split; [assumption|]. split; [|assumption].
  intros exclude Hex. destruct Hff as (_ & _ & _ & _ & _ & Hm & _).
  unfold Spec.link_matches in Hm.
  apply andb_true_iff in Hm as [[Hrpm _]%andb_true_iff _].
  now apply ResolverFacts.is_glibc_rpm_excluded.
Qed.

Lemma resolver_takes_first_free_match_witness :
  "x86_64" ∈ Resolver.target_architectures
  ∧ (∀ exclude, exclude ∈ Resolver.excluded →
       PyStr.contains exclude
         "https://kojipkgs.fedoraproject.org/packages/glibc/2.39/2.fc40/x86_64/glibc-2.39-2.fc40.x86_64.rpm"
       = false)
  ∧ Spec.first_free_match Fixtures.build_page
      (Resolver.extract_rpm_urls_from_buildinfo (Some Fixtures.build_page)) "x86_64"
      "https://kojipkgs.fedoraproject.org/packages/glibc/2.39/2.fc40/x86_64/glibc-2.39-2.fc40.x86_64.rpm".
Proof.
  apply (resolver_takes_first_free_match Fixtures.build_page). vm_compute. reflexivity.
Defined.

(** On a page where no link matches two architectures, the URL of an
    architecture is the first link of the page that matches it. *)
Lemma resolver_first_match_when_unambiguous
    (links : list Crawler.anchor) (arch href : string) :
  (∀ l a1 a2, l ∈ links →
     Spec.link_matches a1 (Crawler.a_href l) = true →
     Spec.link_matches a2 (Crawler.a_href l) = true → a1 = a2) →
  Resolver.extract_rpm_urls_from_buildinfo (Some links) !! arch = Some href →
  ∃ before link after,
    links = (before ++ link :: after)%list
    ∧ Crawler.a_href link = href
    ∧ Spec.link_matches arch href = true
    ∧ ∀ l, l ∈ before → Spec.link_matches arch (Crawler.a_href l) = false.
Proof.
  intros Hone H.
  simpl in H. destruct (ResolverFacts.resolve_links_spec links) as [Hspec _].
  destruct (Hspec arch href H) as (_ & before & link & after & Hlinks & Hh & Hm & Hb).
  exists before, link, after. repeat split; try assumption.
  intros l Hl. destruct (Spec.link_matches arch (Crawler.a_href l)) eqn:E; [|reflexivity].
  exfalso. destruct (Hb l Hl E) as (arch' & (l1 & l2 & Ht & Hin) & Ha').
  destruct (Hspec arch' _ Ha') as (_ & _ & _ & _ & _ & _ & Hm' & _).
  assert (arch' = arch) as ->.
  { apply (Hone l); [|assumption..]. rewrite Hlinks, elem_of_app. now left. }
  assert (NoDup Resolver.target_architectures) as Hnd by (vm_compute; repeat constructor;
    rewrite ?elem_of_cons, ?elem_of_nil; intuition discriminate).
  rewrite Ht in Hnd. apply NoDup_app in Hnd as (_ & _ & Hnd).
  apply NoDup_cons in Hnd as [Hnd _]. contradiction.
Qed.

(** ** Facts about the downloader *)

Module DownloaderFacts.
Import Spec Downloader.

Section Loop.
Variable url_path : string -> string.
Variable stream : nat -> string -> transfer.



End Loop.

End DownloaderFacts.




(** ** Further facts about the crawler *)

Module CrawlFacts.
Import PyStr Spec PyStrFacts Crawler CrawlerFacts PaginationFacts Notions.

#[local] Arguments drop_prefix : simpl never.
#[local] Arguments digits1 : simpl never.
#[local] Arguments startswith : simpl never.
#[local] Arguments glibc_pattern_match : simpl never.
#[local] Arguments search : simpl never.
#[local] Arguments keep_lowest : simpl never.

Lemma build_id_at_digits (s b : string) : build_id_at s = Some b → digit_string b.
Proof.
  unfold build_id_at. destruct (drop_prefix "buildID=" s) as [r|]; [|discriminate]. simpl.
  destruct (digits1 r) as [[d r']|] eqn:E; [|discriminate]. simpl. intros [= <-].
  now apply digits1_spec in E as (_ & Hd & _).
Qed.

(** A row that reaches the catalog agrees with the text of its link. *)
Lemma candidate_entry (url : string) (link : anchor) (k : string * string) (e : entry) :
  candidate url link = Some (k, e) → entry_of_text k e ∧ source_url e = url.
Proof.
  unfold candidate, entry_of_text.
  destruct (glibc_pattern_match (strip (a_text link))) as [[[version rel] disttag]|] eqn:E;
    [|discriminate]. simpl.
  destruct (search build_id_at (a_href link)) as [b|] eqn:Eb; [|discriminate].
  destruct b as [|c b]; [discriminate|]. simpl.
  destruct (startswith "fc" disttag) eqn:Efc; [|discriminate].
  intros [= <- <-]. simpl. split; [|reflexivity].
  exists rel. repeat split; try assumption; try discriminate.
  apply search_Some in Eb as (p & q & _ & Hq & _).
  now apply build_id_at_digits in Hq as [_ Hd].
Qed.

(** What holds of the entries of a catalog and of the rows added to it
    holds of the entries of the result. *)
Lemma keep_lowest_fold_ind (P : string * string → entry → Prop)
    (rows : list ((string * string) * entry)) (dict : catalog) :
  (∀ k e, dict !! k = Some e → P k e) →
  (∀ k e, (k, e) ∈ rows → P k e) →
  ∀ k e, foldl keep_lowest dict rows !! k = Some e → P k e.
Proof.
  revert dict. induction rows as [|[k' e'] rows IH]; intros dict Hd Hr k e; simpl.
  - apply Hd.
  - apply IH.
    + intros k0 e0. rewrite keep_lowest_lookup. case_decide as Hk; [|apply Hd].
      subst k0. destruct (dict !! k') as [old|] eqn:Eold.
      * destruct (release e' <? release old)%N; intros [= <-];
          [apply Hr; left | now apply Hd].
      * intros [= <-]. apply Hr. left.
    + intros k0 e0 H0. apply Hr. now right.
Qed.

(** No key is lost and no release goes up when rows are added. *)
Lemma keep_lowest_fold_mono (rows : list ((string * string) * entry)) (dict : catalog)
    (k : string * string) (old : entry) :
  dict !! k = Some old →
  ∃ new, foldl keep_lowest dict rows !! k = Some new ∧ (release new ≤ release old)%N.
Proof.
  revert dict old. induction rows as [|[k' e'] rows IH]; intros dict old Hk; simpl.
  - exists old. split; [assumption | lia].
  - assert (∃ mid, keep_lowest dict (k', e') !! k = Some mid
                   ∧ (release mid ≤ release old)%N) as (mid & Hmid & Hle).
    { rewrite keep_lowest_lookup. case_decide; [|exists old; split; [assumption | lia]].
      rewrite Hk. destruct (N.ltb_spec (release e') (release old)).
      - exists e'. split; [reflexivity | lia].
      - exists old. split; [reflexivity | lia]. }
    destruct (IH _ _ Hmid) as (new & Hnew & Hle'). exists new. split; [assumption | lia].
Qed.

Section Loop.
Variable lib : urllib.
Variable http_get : nat -> string -> option (list anchor).

(** A pass requests its page first. *)
Lemma crawl_iter_requests (st : crawl_state) :
  ∃ more, requests (iteration_state (crawl_iter lib http_get st))
          = (requests st ++ current_url st :: more)%list.
Proof.
  unfold crawl_iter.
  destruct (scrape_glibc_versions_from_page _ _ _) as [found dict].
  destruct found; simpl; repeat case_match; simpl; rewrite <- ?List.app_assoc;
    eexists; reflexivity.
Qed.

Lemma crawl_iter_entries (st : crawl_state) :
  entries_sound st → entries_sound (iteration_state (crawl_iter lib http_get st)).
Proof.
  intros Hst. unfold entries_sound. rewrite crawl_iter_catalog.
  destruct (crawl_iter_requests st) as [more ->].
  apply keep_lowest_fold_ind.
  - intros k e H. destruct (Hst k e H) as [H1 H2]. split; [assumption|].
    rewrite elem_of_app. now left.
  - intros k e H.
    destruct (http_get (List.length (requests st)) (current_url st)) as [links|];
      [|now apply elem_of_nil in H].
    apply list_elem_of_omap in H as (link & _ & Hc).
    apply candidate_entry in Hc as [H1 ->]. split; [assumption|].
    rewrite elem_of_app, elem_of_cons. tauto.
Qed.

Lemma crawl_loop_entries (fuel : nat) (st : crawl_state) (out : outcome crawl_state) :
  entries_sound st → crawl_loop lib http_get fuel st = Some out →
  entries_sound (outcome_state out).
Proof.
  revert st. induction fuel as [|fuel IH]; intros st Hst; simpl.
  - destruct (loop_guard st); [discriminate|]. now intros [= <-].
  - destruct (loop_guard st); [|now intros [= <-]].
    pose proof (crawl_iter_entries st Hst) as Hnext.
    destruct (crawl_iter lib http_get st) as [st'|st'|e st']; simpl in Hnext.
    + now apply IH.
    + now intros [= <-].
    + now intros [= <-].
Qed.

End Loop.

End CrawlFacts.

(** X1. Every entry of the catalog that the crawl returns agrees with its
    display name: the pattern of the listing applied to the name gives back
    the version and the disttag of its key and a decimal text whose value
    is its release; its build id is a number, its disttag starts with fc,
    and its source page is a URL that the crawl has requested. *)
Theorem crawl_entries_agree_with_their_names
    (lib : Crawler.urllib) (http_get : nat → string → option (list Crawler.anchor))
    (fuel : nat) (out : outcome Crawler.crawl_state) (k : string * string)
    (e : Crawler.entry) :
  Crawler.get_glibc_versions_all_pages lib http_get fuel = Some out →
  Crawler.version_dict (outcome_state out) !! k = Some e →
  Notions.entry_of_text k e ∧ Crawler.source_url e ∈ Crawler.requests (outcome_state out).
Proof.
  intros Hrun Hk.
  apply (CrawlFacts.crawl_loop_entries lib http_get fuel Crawler.initial_state out);
    [|exact Hrun|exact Hk].
  intros k0 e0 H0. simpl in H0. now rewrite lookup_empty in H0.
Qed.

Lemma crawl_entries_agree_with_their_names_witness :
  Notions.entry_of_text ("2.39", "fc40")
    (Crawler.Entry 3 "2400003" "glibc-2.39-3.fc40" Crawler.base_url)
  ∧ Crawler.base_url ∈ [Crawler.base_url; Crawler.base_url; "page2"].
Proof.
  apply (crawl_entries_agree_with_their_names Fixtures.plain_urllib Fixtures.two_pages 2
           (Finished
              (Crawler.CrawlState
                 {[ ("2.39", "fc40")
                    := Crawler.Entry 3 "2400003" "glibc-2.39-3.fc40" Crawler.base_url ]}
                 {[ Crawler.base_url; "page2" ]} "page2" 2
                 [Crawler.base_url; Crawler.base_url; "page2"]))
           ("2.39", "fc40")).
  - vm_compute. reflexivity.
  - vm_compute. reflexivity.
Defined.

(** X2. A crawl never loses a key and never raises a release: whatever
    state the loop starts from, every key of that state's catalog is still
    in the returned catalog, with a release that is no higher. *)
Theorem crawl_keeps_keys_and_lowers_releases
    (lib : Crawler.urllib) (http_get : nat → string → option (list Crawler.anchor))
    (fuel : nat) (st : Crawler.crawl_state) (out : outcome Crawler.crawl_state)
    (k : string * string) (old : Crawler.entry) :
  Crawler.crawl_loop lib http_get fuel st = Some out →
  Crawler.version_dict st !! k = Some old →
  ∃ new, Crawler.version_dict (outcome_state out) !! k = Some new
         ∧ (Crawler.release new ≤ Crawler.release old)%N.
Proof.
  intros Hrun Hk.
  destruct (PaginationFacts.crawl_loop_catalog lib http_get fuel st out Hrun) as [rows ->].
  now apply CrawlFacts.keep_lowest_fold_mono.
Qed.

Lemma crawl_keeps_keys_and_lowers_releases_witness :
  ∃ new, Crawler.version_dict (Spec.stopped_at Fixtures.at_second_page) !! ("2.39", "fc40")
         = Some new
         ∧ (Crawler.release new ≤ 3)%N.
Proof.
  apply (crawl_keeps_keys_and_lowers_releases Fixtures.plain_urllib Fixtures.two_pages 1
           Fixtures.at_second_page (Finished (Spec.stopped_at Fixtures.at_second_page))
           ("2.39", "fc40")
           (Crawler.Entry 3 "2400003" "glibc-2.39-3.fc40" Crawler.base_url)).
  - vm_compute. reflexivity.
  - vm_compute. reflexivity.
Defined.

(** ** Facts about the bookkeeping of the crawl *)

Module BookkeepingFacts.
Import PyStr Spec PyStrFacts Crawler CrawlerFacts PaginationFacts Notions.

Lemma size_add_fresh (X : gset string) (x : string) :
  x ∉ X → size (X ∪ {[x]}) = S (size X).
Proof.
  intros Hx. rewrite size_union, size_singleton; [lia|].
  apply disjoint_singleton_r. exact Hx.
Qed.

Lemma size_remove_one (U X : gset string) (x : string) :
  x ∈ U → x ∉ X → size (U ∖ X) = S (size (U ∖ (X ∪ {[x]}))).
Proof.
  intros Hu Hx. rewrite <- (size_add_fresh (U ∖ (X ∪ {[x]})) x).
  - f_equal. apply set_eq. intros u.
    rewrite elem_of_union, !elem_of_difference, elem_of_union, elem_of_singleton.
    destruct (decide (u = x)) as [->|]; tauto.
  - rewrite elem_of_difference, elem_of_union, elem_of_singleton. tauto.
Qed.

Section Loop.
Variable lib : urllib.
Variable http_get : nat -> string -> option (list anchor).


Lemma construct_next_url_nonempty (current_url u : string) :
  construct_next_url lib current_url = Return u → u ≠ "".
Proof.
  unfold construct_next_url.
  destruct (dict_get "buildStart" _) as [[|v rest]|]; [discriminate| |].
  - destruct (py_int v); [|discriminate]. intros [= <-].
    destruct (scheme (urlparse lib current_url)); simpl; discriminate.
  - intros [= <-]. vm_compute. discriminate.
Qed.

Lemma next_page_url_nonempty (current_url u : string) (links : list anchor) :
  next_page_url lib current_url links = Return u → u ≠ "".
Proof.
  unfold next_page_url.
  destruct (find_next_link lib current_url links) as [[|c u0]|]; simpl.
  - apply construct_next_url_nonempty.
  - intros [= <-]. discriminate.
  - apply construct_next_url_nonempty.
Qed.


(** Whatever the end of a pass, its page is counted and marked. *)
Lemma crawl_iter_counts (st : crawl_state) :
  processed_urls (iteration_state (crawl_iter lib http_get st))
  = processed_urls st ∪ {[current_url st]}
  ∧ page_count (iteration_state (crawl_iter lib http_get st)) = S (page_count st).
Proof.
  unfold crawl_iter.
  destruct (scrape_glibc_versions_from_page _ _ _) as [found dict].
  destruct found; simpl; repeat case_match; simpl; split; reflexivity.
Qed.

(** A pass that goes on has made two requests and goes to a new URL. *)
Lemma crawl_iter_Continue (st st' : crawl_state) :
  crawl_iter lib http_get st = Continue st' →
  requests st' = (requests st ++ [current_url st; current_url st])%list
  ∧ (current_url st' ∉ processed_urls st')
  ∧ current_url st' ≠ "".
Proof.
  pose proof (crawl_iter_counts st) as [Hp _]. revert Hp. unfold crawl_iter.
  destruct (scrape_glibc_versions_from_page _ _ _) as [found dict].
  destruct found; simpl; [|discriminate].
  destruct (http_get _ _) as [links|]; [|discriminate].
  destruct (next_page_url lib (current_url st) links) as [u|e] eqn:En; [|discriminate].
  case_bool_decide as Hin; [discriminate|].
  intros _ [= <-]. simpl. rewrite <- List.app_assoc. repeat split; [assumption|].
  now apply next_page_url_nonempty in En.
Qed.


Lemma loop_guard_true (st : crawl_state) :
  loop_guard st = true ↔ current_url st ≠ "" ∧ current_url st ∉ processed_urls st.
Proof.
  unfold loop_guard. rewrite andb_true_iff, bool_decide_eq_true.
  destruct (current_url st); simpl; split; intros [H1 H2]; split; congruence.
Qed.

Lemma bookkeeping_step (st st' : crawl_state) :
  bookkeeping st → crawl_iter lib http_get st = Continue st' → bookkeeping st'.
Proof.
  intros (Hg & Hc & Hl & Hm) Hi.
  pose proof (crawl_iter_counts st) as [Hp Hn]. rewrite Hi in Hp, Hn. simpl in Hp, Hn.
  apply crawl_iter_Continue in Hi as (Hr & Hnew & Hne).
  apply loop_guard_true in Hg as [_ Hfresh].
  repeat split.
  - now apply loop_guard_true.
  - rewrite Hn, Hp, size_add_fresh by assumption. lia.
  - rewrite Hr, length_app, Hn. simpl. lia.
  - rewrite Hr, Hp, elem_of_app, elem_of_union, elem_of_singleton, !elem_of_cons,
      elem_of_nil, Hm. tauto.
  - rewrite Hr, Hp, elem_of_app, elem_of_union, elem_of_singleton, !elem_of_cons,
      elem_of_nil, Hm. tauto.
Qed.

Lemma bookkeeping_reaches (st : crawl_state) :
  reaches lib http_get initial_state st → bookkeeping st.
Proof.
  induction 1 as [|st' st'' Hr IH Hg Hi].
  - repeat split; try reflexivity; simpl; intros Hu.
    + now apply elem_of_nil in Hu.
    + now apply not_elem_of_empty in Hu.
  - now apply (bookkeeping_step st').
Qed.

(** On a site whose URLs lie in a finite set, the loop ends within as
    many passes as there are URLs left. *)
Lemma crawl_loop_ends (U : gset string) (fuel : nat) (st : crawl_state) :
  (∀ st', reaches lib http_get initial_state st' → current_url st' ∈ U) →
  reaches lib http_get initial_state st →
  processed_urls st ⊆ U →
  (size (U ∖ processed_urls st) ≤ fuel)%nat →
  ∃ out, crawl_loop lib http_get fuel st = Some out
         ∧ processed_urls (outcome_state out) ⊆ U
         ∧ page_count (outcome_state out) = size (processed_urls (outcome_state out)).
Proof.
  intros HU. revert st. induction fuel as [|fuel IH]; intros st Hr Hsub Hsize.
  - exfalso. pose proof (bookkeeping_reaches st Hr) as (Hg & _).
    apply loop_guard_true in Hg as [_ Hfresh]. pose proof (HU st Hr) as Hin.
    assert (U ∖ processed_urls st ≡ ∅) as Hd by (apply size_empty_inv; lia).
    apply (not_elem_of_empty (C := gset string) (current_url st)).
    rewrite <- Hd, elem_of_difference. tauto.
  - pose proof (bookkeeping_reaches st Hr) as (Hg & Hc & _).
    simpl. rewrite Hg.
    pose proof (crawl_iter_counts st) as [Hp Hn].
    pose proof (HU st Hr) as Hin.
    destruct (crawl_iter lib http_get st) as [st'|st'|e st'] eqn:Hi; simpl in Hp, Hn.
    + apply IH.
      * now apply (reaches_next _ _ _ st).
      * rewrite Hp. apply union_subseteq. split; [assumption|].
        now apply singleton_subseteq_l.
      * apply loop_guard_true in Hg as [_ Hfresh]. rewrite Hp.
        pose proof (size_remove_one U (processed_urls st) (current_url st) Hin Hfresh).
        lia.
    + eexists. split; [reflexivity|]. simpl. rewrite Hp, Hn. split.
      * apply union_subseteq. split; [assumption | now apply singleton_subseteq_l].
      * apply loop_guard_true in Hg as [_ Hfresh].
        rewrite size_add_fresh by assumption. lia.
    + eexists. split; [reflexivity|]. simpl. rewrite Hp, Hn. split.
      * apply union_subseteq. split; [assumption | now apply singleton_subseteq_l].
      * apply loop_guard_true in Hg as [_ Hfresh].
        rewrite size_add_fresh by assumption. lia.
Qed.

End Loop.

End BookkeepingFacts.





(** X5. On a site whose listing URLs all lie in a finite set, the crawl
    ends: as many passes as the set has URLs are enough for the function
    to return, and the returned page count is at most that number. *)
Theorem crawl_ends_on_a_finite_site
    (lib : Crawler.urllib) (http_get : nat → string → option (list Crawler.anchor))
    (U : gset string) :
  (∀ st, Crawler.reaches lib http_get Crawler.initial_state st → Crawler.current_url st ∈ U) →
  ∃ out, Crawler.get_glibc_versions_all_pages lib http_get (size U) = Some out
         ∧ (Crawler.page_count (outcome_state out) ≤ size U)%nat.
Proof.
  intros HU.
  destruct (BookkeepingFacts.crawl_loop_ends lib http_get U (size U) Crawler.initial_state HU)
    as (out & Hrun & Hsub & Hcount).
  - apply Crawler.reaches_here.
  - apply empty_subseteq.
  - simpl. apply subseteq_size. apply subseteq_difference_l. reflexivity.
  - exists out. split; [exact Hrun|]. rewrite Hcount. now apply subseteq_size.
Qed.

Lemma crawl_ends_on_a_finite_site_witness :
  ∃ out,
    Crawler.get_glibc_versions_all_pages Fixtures.plain_urllib Fixtures.two_pages
      (size ({[ Crawler.base_url; "page2" ]} : gset string))
    = Some out
    ∧ (Crawler.page_count (outcome_state out)
       ≤ size ({[ Crawler.base_url; "page2" ]} : gset string))%nat.
Proof.
  apply (crawl_ends_on_a_finite_site Fixtures.plain_urllib Fixtures.two_pages).
  intros st Hr.
  assert (st = Crawler.initial_state ∨ st = Fixtures.at_second_page) as [-> | ->].
  { induction Hr as [|st' st'' Hr IH Hg Hi]; [now left|].
    destruct IH as [-> | ->].
    - right. vm_compute in Hi. now injection Hi as <-.
    - vm_compute in Hi. discriminate Hi. }
  - apply elem_of_union_l, elem_of_singleton. reflexivity.
  - apply elem_of_union_r, elem_of_singleton. reflexivity.
Defined.

(** ** Further facts about the resolver *)

Module ResolveFacts.
Import PyStr Spec PyStrFacts Crawler Resolver ResolverFacts.

Lemma find_first {A} (f : A → bool) (before after : list A) (x : A) :
  f x = true → (∀ y, y ∈ before → f y = false) →
  List.find f (before ++ x :: after) = Some x.
Proof.
  intros Hx. induction before as [|y before IH]; intros Hb; simpl.
  - now rewrite Hx.
  - rewrite (Hb y) by left. apply IH. intros z Hz. apply Hb. now right.
Qed.

Lemma find_nothing {A} (f : A → bool) (l : list A) :
  (∀ y, y ∈ l → f y = false) → List.find f l = None.
Proof.
  induction l as [|y l IH]; intros Hl; simpl; [reflexivity|].
  rewrite (Hl y) by left. apply IH. intros z Hz. apply Hl. now right.
Qed.

(** A link leaves the architectures that have a URL as they are. *)
Lemma resolve_link_keeps (rpm_urls : gmap string string) (link : anchor) (arch href : string) :
  rpm_urls !! arch = Some href → resolve_link rpm_urls link !! arch = Some href.
Proof.
  intros H. unfold resolve_link. destruct (is_glibc_rpm (a_href link)); [|assumption].
  destruct (assign_arch_spec target_architectures (a_href link) rpm_urls)
    as [(l1 & a & l2 & _ & Ht & _ & ->)|[_ ->]]; [|assumption].
  apply takes_true in Ht as (_ & Hfree & _).
  rewrite lookup_insert_ne; [assumption | congruence].
Qed.

Lemma resolve_links_keep (links : list anchor) (rpm_urls : gmap string string)
    (arch href : string) :
  rpm_urls !! arch = Some href → foldl resolve_link rpm_urls links !! arch = Some href.
Proof.
  revert rpm_urls. induction links as [|link links IH]; intros rpm_urls H; simpl;
    [assumption|].
  apply IH. now apply resolve_link_keeps.
Qed.

(** An architecture that no link matches gets no URL. *)
Lemma resolve_links_absent (links : list anchor) (arch : string) :
  (∀ l, l ∈ links → link_matches arch (a_href l) = false) →
  foldl resolve_link ∅ links !! arch = None.
Proof.
  intros Hno. destruct (foldl resolve_link ∅ links !! arch) as [href|] eqn:E; [|reflexivity].
  destruct (resolve_links_spec links) as [H1 _].
  destruct (H1 arch href E) as (_ & before & link & after & Hlinks & Hh & Hm & _).
  subst href. rewrite Hno in Hm; [discriminate|].
  rewrite Hlinks, elem_of_app, elem_of_cons. tauto.
Qed.

Lemma earlier_target (arch' arch : string) : earlier arch' arch → arch' ∈ target_architectures.
Proof. intros (l1 & l2 & -> & _). rewrite elem_of_app, elem_of_cons. tauto. Qed.

Lemma earlier_irrefl (arch : string) : ¬ earlier arch arch.
Proof.
  intros (l1 & l2 & Ht & Hin).
  assert (NoDup target_architectures) as Hnd
    by (repeat constructor; rewrite ?elem_of_cons, ?elem_of_nil; intuition discriminate).
  rewrite Ht in Hnd. apply NoDup_app in Hnd as (_ & _ & Hnd).
  apply NoDup_cons in Hnd as [Hnd _]. contradiction.
Qed.

End ResolveFacts.

(** X6. On a build page where no link matches two target architectures,
    the resolver maps each target architecture to the first link of the
    page that matches it, and leaves it out when no link matches it. *)
Theorem resolver_is_first_match_on_unambiguous_pages
    (links : list Crawler.anchor) (arch : string) :
  (∀ l a1 a2, l ∈ links →
     a1 ∈ Resolver.target_architectures → a2 ∈ Resolver.target_architectures →
     Spec.link_matches a1 (Crawler.a_href l) = true →
     Spec.link_matches a2 (Crawler.a_href l) = true → a1 = a2) →
  arch ∈ Resolver.target_architectures →
  Resolver.extract_rpm_urls_from_buildinfo (Some links) !! arch
  = Crawler.a_href
      <$> List.find (λ l, Spec.link_matches arch (Crawler.a_href l)) links.
Proof.
  intros Hone Harch. simpl.
  destruct (ResolverFacts.resolve_links_spec links) as [H1 H2].
  assert (∀ l, l ∈ links → Spec.link_matches arch (Crawler.a_href l) = true →
               ∀ arch', Spec.earlier arch' arch →
                        foldl Resolver.resolve_link ∅ links !! arch' = Some (Crawler.a_href l) →
                        False) as Hnot.
  { intros l Hl Hm arch' He Ha'.
    destruct (H1 arch' _ Ha') as (_ & _ & _ & _ & _ & _ & Hm' & _).
    assert (arch' = arch) as ->.
    { apply (Hone l); try assumption. now apply ResolveFacts.earlier_target in He. }
    now apply ResolveFacts.earlier_irrefl in He. }
  destruct (foldl Resolver.resolve_link ∅ links !! arch) as [href|] eqn:E.
  - destruct (H1 arch href E) as (_ & before & link & after & Hlinks & <- & Hm & Hb).
    rewrite Hlinks, (ResolveFacts.find_first _ before after link Hm); [reflexivity|].
    intros l Hl. destruct (Spec.link_matches arch (Crawler.a_href l)) eqn:Em; [|reflexivity].
    exfalso. destruct (Hb l Hl Em) as (arch' & He & Ha').
    apply (Hnot l) with (arch' := arch'); try assumption.
    rewrite Hlinks, elem_of_app. now left.
  - rewrite ResolveFacts.find_nothing; [reflexivity|].
    intros l Hl. destruct (Spec.link_matches arch (Crawler.a_href l)) eqn:Em; [|reflexivity].
    exfalso. destruct (H2 arch Harch E l Hl Em) as (arch' & He & Ha').
    now apply (Hnot l Hl Em arch').
Qed.

Lemma resolver_is_first_match_on_unambiguous_pages_witness :
  Resolver.extract_rpm_urls_from_buildinfo (Some Fixtures.build_page) !! "x86_64"
  = Crawler.a_href
      <$> List.find (λ l, Spec.link_matches "x86_64" (Crawler.a_href l)) Fixtures.build_page.
Proof.
  apply resolver_is_first_match_on_unambiguous_pages.
  - intros l a1 a2 Hl Ha1 Ha2.
    repeat (apply elem_of_cons in Hl as [->|Hl];
            [repeat (apply elem_of_cons in Ha1 as [->|Ha1];
                     [repeat (apply elem_of_cons in Ha2 as [->|Ha2];
                              [vm_compute; congruence|]);
                      now apply elem_of_nil in Ha2|]);
             now apply elem_of_nil in Ha1|]).
    now apply elem_of_nil in Hl.
  - vm_compute. right. right. left.
Defined.

(** X7. An architecture that no link of the build page matches is absent
    from the mapping, and so is every architecture when the page cannot be
    fetched: the resolver reports neither as an error. *)
Theorem resolver_leaves_out_unmatched
    (response : option (list Crawler.anchor)) (arch : string) :
  (∀ links l, response = Some links → l ∈ links →
     Spec.link_matches arch (Crawler.a_href l) = false) →
  Resolver.extract_rpm_urls_from_buildinfo response !! arch = None.
Proof.
  intros Hno. destruct response as [links|]; simpl.
  - apply ResolveFacts.resolve_links_absent. intros l Hl. now apply (Hno links).
  - apply lookup_empty.
Qed.

Lemma resolver_leaves_out_unmatched_witness :
  Resolver.extract_rpm_urls_from_buildinfo (Some Fixtures.build_page) !! "i686" = None.
Proof.
  apply resolver_leaves_out_unmatched. intros links l [= <-] Hl.
  repeat (apply elem_of_cons in Hl as [->|Hl]; [reflexivity|]).
  now apply elem_of_nil in Hl.
Defined.

(** X8. The first match wins for good: an architecture that has a URL
    after some links of a page keeps that URL whatever links follow. *)
Theorem resolver_never_overwrites
    (links more : list Crawler.anchor) (arch href : string) :
  Resolver.extract_rpm_urls_from_buildinfo (Some links) !! arch = Some href →
  Resolver.extract_rpm_urls_from_buildinfo (Some (links ++ more)%list) !! arch = Some href.
Proof.
  simpl. intros H. rewrite foldl_app. now apply ResolveFacts.resolve_links_keep.
Qed.

Lemma resolver_never_overwrites_witness :
  Resolver.extract_rpm_urls_from_buildinfo
    (Some (firstn 6 Fixtures.build_page ++ skipn 6 Fixtures.build_page)%list) !! "x86_64"
  = Some "https://kojipkgs.fedoraproject.org/packages/glibc/2.39/2.fc40/x86_64/glibc-2.39-2.fc40.x86_64.rpm".
Proof. apply resolver_never_overwrites. vm_compute. reflexivity. Defined.

(** ** Facts about paths *)

Module PathFacts.
Import PyStr PyPath Spec PyStrFacts.

Lemma contains_slash_cons (c : ascii) (s : string) :
  contains "/" (String c s) = Ascii.eqb "/" c || contains "/" s.
Proof.
  change (contains "/" (String c s))
    with (startswith "/" (String c s) || contains "/" s).
  f_equal. change (startswith "/" (String c s)) with (if Ascii.eqb "/" c then true else false).
  now destruct (Ascii.eqb "/" c).
Qed.

Lemma contains_slash_app (a b : string) :
  contains "/" (a +:+ b) = contains "/" a || contains "/" b.
Proof.
  induction a as [|c a IH].
  - simpl. reflexivity.
  - change (String c a +:+ b) with (String c (a +:+ b)).
    now rewrite !contains_slash_cons, IH, orb_assoc.
Qed.

Lemma basename_cons (c : ascii) (p : string) :
  basename (String c p) = if contains "/" (String c p) then basename p else String c p.
Proof. reflexivity. Qed.

(** A path without a slash is its own base name. *)
Lemma basename_id (p : string) : contains "/" p = false → basename p = p.
Proof. destruct p as [|c p]; [reflexivity|]. intros H. now rewrite basename_cons, H. Qed.

(** The base name has no slash. *)
Lemma basename_no_slash (p : string) : contains "/" (basename p) = false.
Proof.
  induction p as [|c p IH]; [reflexivity|].
  rewrite basename_cons. destruct (contains "/" (String c p)) eqn:E; assumption.
Qed.

(** The base name of a path is what follows its last slash. *)
Lemma basename_after_slash (a b : string) :
  contains "/" b = false → basename (a +:+ "/" +:+ b) = b.
Proof.
  intros Hb. induction a as [|c a IH].
  - change ("" +:+ "/" +:+ b) with (String "/" b).
    rewrite basename_cons, contains_slash_cons, Ascii.eqb_refl. now apply basename_id.
  - change (String c a +:+ "/" +:+ b) with (String c (a +:+ String "/" b)).
    rewrite basename_cons, contains_slash_cons, contains_slash_app, contains_slash_cons,
      Ascii.eqb_refl, !orb_true_r. exact IH.
Qed.

Lemma startswith_slash (b : string) : contains "/" b = false → startswith "/" b = false.
Proof.
  destruct b as [|c b]; [reflexivity|]. rewrite contains_slash_cons.
  intros [H _]%orb_false_iff.
  change (startswith "/" (String c b)) with (if Ascii.eqb "/" c then true else false).
  now rewrite H.
Qed.

Lemma rev_acc_app (s acc : string) : rev_acc s acc = rev s +:+ acc.
Proof.
  unfold rev. revert acc. induction s as [|c s IH]; intros acc; simpl; [reflexivity|].
  rewrite IH, (IH (String c "")), app_assoc. reflexivity.
Qed.

Lemma rev_cons (c : ascii) (s : string) : rev (String c s) = rev s +:+ String c "".
Proof. unfold rev at 1. simpl. apply rev_acc_app. Qed.

Lemma rev_app (a b : string) : rev (a +:+ b) = rev b +:+ rev a.
Proof.
  induction a as [|c a IH].
  - simpl. now rewrite app_nil_r.
  - change (String c a +:+ b) with (String c (a +:+ b)).
    now rewrite !rev_cons, IH, app_assoc.
Qed.

Lemma rev_involutive (s : string) : rev (rev s) = s.
Proof.
  induction s as [|c s IH]; [reflexivity|].
  now rewrite rev_cons, rev_app, IH.
Qed.

Lemma all_dots_app (a b : string) : all_dots (a +:+ b) = all_dots a && all_dots b.
Proof.
  induction a as [|c a IH]; simpl; [reflexivity|]. now rewrite IH, andb_assoc.
Qed.

Lemma all_dots_rev (s : string) : all_dots (rev s) = all_dots s.
Proof.
  induction s as [|c s IH]; [reflexivity|].
  rewrite rev_cons, all_dots_app, IH. simpl. rewrite andb_true_r. apply andb_comm.
Qed.

(** The extension .rpm comes off a name that is not made of dots. *)
Lemma splitext_root_rpm (x : string) :
  all_dots x = false → splitext_root (x +:+ ".rpm") = x.
Proof.
  intros Hx. unfold splitext_root. rewrite rev_app.
  change (rev ".rpm") with "mpr.". simpl after_dot. cbv beta iota.
  now rewrite all_dots_rev, Hx, rev_involutive.
Qed.

End PathFacts.

(** X9. The local path of a download is the download directory, a slash,
    and the base name of the path of the URL, which holds no slash; the
    base name of the local path gives that name back. *)
Theorem local_path_stays_in_download_dir (url_path : string → string) (url : string) :
  Downloader.local_path url_path url
  = Downloader.download_dir +:+ "/" +:+ PyPath.basename (url_path url)
  ∧ PyStr.contains "/" (PyPath.basename (url_path url)) = false
  ∧ PyPath.basename (Downloader.local_path url_path url) = PyPath.basename (url_path url).
Proof.
  pose proof (PathFacts.basename_no_slash (url_path url)) as Hno.
  assert (Downloader.local_path url_path url
          = Downloader.download_dir +:+ "/" +:+ PyPath.basename (url_path url)) as Hpath.
  { unfold Downloader.local_path, PyPath.join.
    now rewrite (PathFacts.startswith_slash _ Hno). }
  split; [exact Hpath|]. split; [exact Hno|].
  rewrite Hpath. now apply PathFacts.basename_after_slash.
Qed.

(** ** Further facts about the downloader and the extractor *)

Module TransferFacts.
Import PyStr PyPath Spec PyStrFacts Downloader Extractor Notions.

Section Download.
Variable url_path : string -> string.
Variable stream : nat -> string -> transfer.


End Download.

Lemma find_Some_first {A} (f : A → bool) (l : list A) (x : A) :
  List.find f l = Some x →
  ∃ before after, l = (before ++ x :: after)%list ∧ f x = true
                  ∧ ∀ y, y ∈ before → f y = false.
Proof.
  induction l as [|y l IH]; simpl; [discriminate|].
  destruct (f y) eqn:Ey.
  - intros [= <-]. exists [], l. repeat split; [assumption|].
    intros z Hz. now apply elem_of_nil in Hz.
  - intros H. destruct (IH H) as (before & after & -> & Hx & Hb).
    exists (y :: before), after. repeat split; [assumption|].
    intros z [->|Hz]%elem_of_cons; [assumption | now apply Hb].
Qed.

(** The loop over the files when no file raises. *)
Lemma extract_loop_names (env : nat → extraction_env) (files : list string) (item : nat)
    (names : list string) :
  (∀ i f, files !! i = Some f →
          ∃ r, extract_with_rpm2cpio (env (item + i)) f binary_dir = Return r) →
  ∃ more,
    extract_loop env item files names = Finished (names ++ more)%list
    ∧ sublist more (listed_name <$> files)
    ∧ ∀ n, n ∈ more ↔
           ∃ i f r, files !! i = Some f
                    ∧ extract_with_rpm2cpio (env (item + i)) f binary_dir = Return r
                    ∧ Crawler.truthy r = true ∧ n = listed_name f.
Proof.
  revert item names. induction files as [|f files IH]; intros item names Hok.
  - exists []. simpl. rewrite List.app_nil_r. repeat split; [constructor| |].
    + intros Hn. now apply elem_of_nil in Hn.
    + intros (i & f & r & Hi & _). discriminate.
  - destruct (Hok 0 f eq_refl) as [r Hr]. rewrite Nat.add_0_r in Hr.
    assert (∀ i f0, files !! i = Some f0 →
              ∃ r0, extract_with_rpm2cpio (env (S item + i)) f0 binary_dir = Return r0) as Hok'.
    { intros i f0 Hi. replace (S item + i) with (item + S i) by lia. now apply (Hok (S i)). }
    assert (∀ (more : list string) n,
              (n ∈ more ↔
               ∃ i f0 r0, files !! i = Some f0
                 ∧ extract_with_rpm2cpio (env (S item + i)) f0 binary_dir = Return r0
                 ∧ Crawler.truthy r0 = true ∧ n = listed_name f0) →
              (n ∈ more ↔
               ∃ i f0 r0, files !! i = Some f0
                 ∧ extract_with_rpm2cpio (env (item + S i)) f0 binary_dir = Return r0
                 ∧ Crawler.truthy r0 = true ∧ n = listed_name f0)) as Hshift.
    { intros more n ->. split; intros (i & f0 & r0 & H1 & H2 & H3); exists i, f0, r0;
        replace (item + S i) with (S item + i) in * by lia; auto. }
    simpl extract_loop. rewrite Hr. destruct (Crawler.truthy r) eqn:Et.
    + destruct (IH (S item) (names ++ [listed_name f])%list Hok') as (more & Hrun & Hsub & Hin).
      exists (listed_name f :: more). unfold listed_name in Hrun at 1. rewrite Hrun.
      rewrite <- List.app_assoc. repeat split; [now constructor| |].
      * intros [->|Hn]%elem_of_cons.
        -- exists 0, f, r. rewrite Nat.add_0_r. auto.
        -- apply (Hshift more n (Hin n)) in Hn as (i & f0 & r0 & H1 & H2 & H3).
           exists (S i), f0, r0. auto.
      * intros ([|i] & f0 & r0 & H1 & H2 & H3 & H4); simpl in H1.
        -- injection H1 as <-. subst n. left.
        -- right. apply (Hshift more n (Hin n)). exists i, f0, r0. auto.
    + destruct (IH (S item) names Hok') as (more & Hrun & Hsub & Hin).
      exists more. rewrite Hrun. repeat split; [now constructor| |].
      * intros Hn. apply (Hshift more n (Hin n)) in Hn as (i & f0 & r0 & H1 & H2 & H3).
        exists (S i), f0, r0. auto.
      * intros ([|i] & f0 & r0 & H1 & H2 & H3 & H4); simpl in H1.
        -- injection H1 as <-. rewrite Nat.add_0_r in H2. congruence.
        -- apply (Hshift more n (Hin n)). exists i, f0, r0. auto.
Qed.

End TransferFacts.



(** X11. A path that the extraction returns is the first of the four
    fixed places, under the output directory, that exists after the run;
    and it is returned only when both processes could be started, a name
    could be derived from the file, and [cpio] ended with status 0. *)
Theorem extraction_success_is_sound
    (env : Extractor.extraction_env) (rpm_file output_dir p : string) :
  Extractor.extract_with_rpm2cpio env rpm_file output_dir = Return (Some p) →
  Extractor.rpm2cpio_found env = true
  ∧ Extractor.cpio_found env = true
  ∧ (∃ name, Naming.create_libc_filename rpm_file = Return name
             ∧ Extractor.cpio_returncode env (Extractor.cpio_args name) = 0%Z)
  ∧ ∃ before after,
      map (λ path, PyPath.join output_dir (PyPath.lstrip_chars "./" path)) Extractor.LIBC_PATHS
      = (before ++ p :: after)%list
      ∧ Extractor.path_exists env p = true
      ∧ ∀ q, q ∈ before → Extractor.path_exists env q = false.
Proof.
  unfold Extractor.extract_with_rpm2cpio.
  destruct (Extractor.rpm2cpio_found env); simpl; [|discriminate].
  destruct (Naming.create_libc_filename rpm_file) as [name|e]; [|discriminate].
  destruct (Extractor.cpio_found env); simpl; [|discriminate].
  destruct (Z.eqb_spec (Extractor.cpio_returncode env (Extractor.cpio_args name)) 0)
    as [Hrc|Hrc].
  - intros [= Hfind]. repeat split; [now exists name|].
    exact (TransferFacts.find_Some_first (Extractor.path_exists env)
             (map (λ path, PyPath.join output_dir (PyPath.lstrip_chars "./" path))
                Extractor.LIBC_PATHS) p Hfind).
  - destruct (Extractor.stderr_decodes env); discriminate.
Qed.

Lemma extraction_success_is_sound_witness :
  Extractor.rpm2cpio_found Notions.good_env = true
  ∧ Extractor.cpio_found Notions.good_env = true
  ∧ (∃ name,
       Naming.create_libc_filename "../GlibcDownloads/Fedora/glibc-2.39-2.fc40.x86_64.rpm"
       = Return name
       ∧ Extractor.cpio_returncode Notions.good_env (Extractor.cpio_args name) = 0%Z)
  ∧ ∃ before after,
      map (λ path, PyPath.join Extractor.binary_dir (PyPath.lstrip_chars "./" path))
        Extractor.LIBC_PATHS
      = (before ++ "../GlibcDownloads/Fedora/Binaries/usr/lib/libc.so.6" :: after)%list
      ∧ Extractor.path_exists Notions.good_env
          "../GlibcDownloads/Fedora/Binaries/usr/lib/libc.so.6" = true
      ∧ ∀ q, q ∈ before → Extractor.path_exists Notions.good_env q = false.
Proof.
  apply (extraction_success_is_sound Notions.good_env
           "../GlibcDownloads/Fedora/glibc-2.39-2.fc40.x86_64.rpm").
  vm_compute. reflexivity.
Defined.

(** X12. When no file makes the extraction raise, [extract_all_rpms]
    returns, and the names it returns are, in the order of the files, the
    names of exactly those files whose extraction returned a path; a file
    whose extraction failed leaves no name. *)
Theorem extract_all_rpms_lists_the_extracted
    (env : nat → Extractor.extraction_env) (files : list string) :
  (∀ i f, files !! i = Some f →
          ∃ r, Extractor.extract_with_rpm2cpio (env i) f Extractor.binary_dir = Return r) →
  ∃ names,
    Extractor.extract_all_rpms env files = Finished names
    ∧ sublist names (Notions.listed_name <$> files)
    ∧ ∀ n, n ∈ names ↔
           ∃ i f r, files !! i = Some f
                    ∧ Extractor.extract_with_rpm2cpio (env i) f Extractor.binary_dir = Return r
                    ∧ Crawler.truthy r = true ∧ n = Notions.listed_name f.
Proof.
  intros Hok.
  destruct (TransferFacts.extract_loop_names env files 0 [] Hok) as (more & Hrun & Hsub & Hin).
  exists more. split; [exact Hrun|]. split; [exact Hsub | exact Hin].
Qed.

Lemma extract_all_rpms_lists_the_extracted_witness :
  ∃ names,
    Extractor.extract_all_rpms
      (fun i => match i with 1 => Notions.failing_env | _ => Notions.good_env end)
      ["../GlibcDownloads/Fedora/glibc-2.38-1.fc39.i686.rpm";
       "../GlibcDownloads/Fedora/glibc-2.39-2.fc40.x86_64.rpm";
       "../GlibcDownloads/Fedora/glibc-2.40-3.fc41.x86_64.rpm"]
    = Finished names
    ∧ sublist names
        (Notions.listed_name
           <$> ["../GlibcDownloads/Fedora/glibc-2.38-1.fc39.i686.rpm";
                "../GlibcDownloads/Fedora/glibc-2.39-2.fc40.x86_64.rpm";
                "../GlibcDownloads/Fedora/glibc-2.40-3.fc41.x86_64.rpm"]).
Proof.
  destruct (extract_all_rpms_lists_the_extracted
              (fun i => match i with 1 => Notions.failing_env | _ => Notions.good_env end)
              ["../GlibcDownloads/Fedora/glibc-2.38-1.fc39.i686.rpm";
               "../GlibcDownloads/Fedora/glibc-2.39-2.fc40.x86_64.rpm";
               "../GlibcDownloads/Fedora/glibc-2.40-3.fc41.x86_64.rpm"])
    as (names & Hrun & Hsub & _).
  - intros [|[|[|i]]] f Hi; simpl in Hi; try discriminate Hi;
      injection Hi as <-; eexists; vm_compute; reflexivity.
  - exists names. split; assumption.
Defined.

(** X13. The name under which a downloaded package is listed after its
    extraction is the base name of the path of its URL without the
    extension .rpm, followed by _libc.so.6. *)
Theorem listed_name_of_a_download (url_path : string → string) (url x : string) :
  PyPath.basename (url_path url) = x +:+ ".rpm" →
  PyPath.all_dots x = false →
  Notions.listed_name (Downloader.local_path url_path url) = x +:+ "_libc.so.6".
Proof.
  intros Hname Hx. unfold Notions.listed_name.
  pose proof (PathFacts.basename_no_slash (url_path url)) as Hno.
  assert (PyPath.basename (Downloader.local_path url_path url) = x +:+ ".rpm") as ->.
  { assert (Downloader.local_path url_path url
            = Downloader.download_dir +:+ "/" +:+ PyPath.basename (url_path url)) as ->.
    { unfold Downloader.local_path, PyPath.join.
      now rewrite (PathFacts.startswith_slash _ Hno). }
    rewrite <- Hname. now apply PathFacts.basename_after_slash. }
  now rewrite PathFacts.splitext_root_rpm.
Qed.

Lemma listed_name_of_a_download_witness :
  Notions.listed_name
    (Downloader.local_path (fun url => url)
       "/packages/glibc/2.39/2.fc40/x86_64/glibc-2.39-2.fc40.x86_64.rpm")
  = "glibc-2.39-2.fc40.x86_64" +:+ "_libc.so.6".
Proof. apply listed_name_of_a_download; reflexivity. Defined.

(** ** Facts about the run of the gadget compiler *)

Module RunFacts.
Import PyStr PyPath Spec PyStrFacts GadgetCompiler GadgetFacts Gadgets Notions.

Lemma split_cons (sep c : ascii) (s : string) :
  split sep (String c s)
  = if Ascii.eqb c sep then "" :: split sep s
    else match split sep s with
         | piece :: pieces => String c piece :: pieces
         | [] => [String c ""]
         end.
Proof. reflexivity. Qed.

(** A string without the separator is a single piece. *)
Lemma split_lacks (sep : ascii) (s : string) : lacks sep s = true → split sep s = [s].
Proof.
  induction s as [|c s IH]; [reflexivity|]. simpl lacks.
  intros [Hc Hs]%andb_true_iff. apply negb_true_iff in Hc.
  now rewrite split_cons, Hc, IH.
Qed.

(** What stands before the first separator is the first piece. *)
Lemma split_app_sep (sep : ascii) (a b : string) :
  lacks sep a = true → split sep (a +:+ String sep b) = a :: split sep b.
Proof.
  induction a as [|c a IH].
  - intros _. change ("" +:+ String sep b) with (String sep b).
    now rewrite split_cons, Ascii.eqb_refl.
  - simpl lacks. intros [Hc Ha]%andb_true_iff. apply negb_true_iff in Hc.
    change (String c a +:+ String sep b) with (String c (a +:+ String sep b)).
    now rewrite split_cons, Hc, IH.
Qed.

Lemma lacks_app (c : ascii) (a b : string) : lacks c (a +:+ b) = lacks c a && lacks c b.
Proof.
  induction a as [|x a IH]; [reflexivity|].
  change (String x a +:+ b) with (String x (a +:+ b)). simpl lacks.
  now rewrite IH, andb_assoc.
Qed.

Lemma digits_lack (c : ascii) (d : string) :
  is_digit c = false → digit_string d → lacks c d = true.
Proof.
  intros Hc [_ Hd]. induction d as [|x d IH]; [reflexivity|].
  simpl in Hd. apply andb_true_iff in Hd as [Hx Hd]. simpl lacks.
  rewrite IH by assumption. rewrite andb_true_r. apply negb_true_iff.
  apply Ascii.eqb_neq. congruence.
Qed.

Lemma kept_lines_clean (lines out : list string) : kept_lines lines out → clean out.
Proof. induction 1; [constructor | now constructor | assumption]. Qed.

Lemma remove_junk_clean (lines : list string) : clean (remove_junk lines).
Proof. apply (kept_lines_clean lines), remove_junk_kept. Qed.

Lemma rewrite_after_write (fs : gmap string (list string)) (path : string)
    (out : list string) :
  rewrite_gadget_file (<[path := out]> fs) path = <[path := remove_junk out]> fs.
Proof.
  unfold rewrite_gadget_file. now rewrite lookup_insert_eq, insert_insert_eq.
Qed.

Section Loop.
Variable ropper : string -> option (list string * bool).

Lemma gadgets_loop_cons_ok (name : string) (names : list string)
    (fs : gmap string (list string)) (path : string) (out : list string) :
  gadget_path name = Return path →
  ropper (join Extractor.binary_dir name) = Some (out, true) →
  gadgets_loop ropper (name :: names) fs
  = gadgets_loop ropper names (<[path := remove_junk out]> fs).
Proof.
  intros Hp Hr. simpl gadgets_loop. rewrite Hp. cbv zeta. rewrite Hr.
  now rewrite rewrite_after_write.
Qed.

(** A loop that comes to its end has passed every name well. *)
Lemma gadgets_loop_done_cons (name : string) (names : list string)
    (fs fs' : gmap string (list string)) :
  gadgets_loop ropper (name :: names) fs = LoopDone fs' →
  ∃ path out,
    gadget_path name = Return path
    ∧ ropper (join Extractor.binary_dir name) = Some (out, true)
    ∧ gadgets_loop ropper names (<[path := remove_junk out]> fs) = LoopDone fs'.
Proof.
  simpl gadgets_loop. destruct (gadget_path name) as [path|e]; [|discriminate].
  cbv zeta. destruct (ropper (join Extractor.binary_dir name)) as [[out [|]]|] eqn:Er;
    [|discriminate..].
  rewrite rewrite_after_write. intros H. now exists path, out.
Qed.

Lemma gadgets_loop_keeps_files (names : list string) (fs fs' : gmap string (list string))
    (p : string) :
  gadgets_loop ropper names fs = LoopDone fs' → is_Some (fs !! p) → is_Some (fs' !! p).
Proof.
  revert fs. induction names as [|name names IH]; intros fs.
  - now intros [= <-].
  - intros (path & out & _ & _ & Hrest)%gadgets_loop_done_cons Hp.
    apply (IH _ Hrest). rewrite lookup_insert. case_decide; [eexists; reflexivity|assumption].
Qed.

(** A file is clean after the loop, or it is as before and is the file
    of no name. *)
Lemma gadgets_loop_files (names : list string) (fs fs' : gmap string (list string))
    (p : string) (lines : list string) :
  gadgets_loop ropper names fs = LoopDone fs' → fs' !! p = Some lines →
  clean lines
  ∨ (fs !! p = Some lines ∧ ∀ name, name ∈ names → gadget_path name ≠ Return p).
Proof.
  revert fs. induction names as [|name names IH]; intros fs.
  - intros [= <-] Hp. right. split; [assumption|]. intros name Hn. now apply elem_of_nil in Hn.
  - intros (path & out & Hpath & _ & Hrest)%gadgets_loop_done_cons Hp.
    destruct (IH _ Hrest Hp) as [Hc|[Hfs Hno]]; [now left|].
    destruct (decide (path = p)) as [->|Hne].
    + left. rewrite lookup_insert_eq in Hfs. injection Hfs as <-. apply remove_junk_clean.
    + right. rewrite lookup_insert_ne in Hfs by assumption. split; [assumption|].
      intros n [->|Hn]%elem_of_cons; [congruence | now apply Hno].
Qed.

Lemma gadgets_loop_paths (names : list string) (fs fs' : gmap string (list string))
    (name : string) :
  gadgets_loop ropper names fs = LoopDone fs' → name ∈ names →
  ∃ path, gadget_path name = Return path ∧ is_Some (fs' !! path).
Proof.
  revert fs. induction names as [|n names IH]; intros fs Hrun Hin;
    [now apply elem_of_nil in Hin|].
  apply gadgets_loop_done_cons in Hrun as (path & out & Hpath & _ & Hrest).
  apply elem_of_cons in Hin as [->|Hin]; [|now apply (IH _ Hrest)].
  exists path. split; [assumption|].
  apply (gadgets_loop_keeps_files _ _ _ _ Hrest). rewrite lookup_insert_eq. eexists. reflexivity.
Qed.

(** The file of no name is left as it was. *)
Lemma gadgets_loop_untouched (names : list string) (fs fs' : gmap string (list string))
    (p : string) :
  gadgets_loop ropper names fs = LoopDone fs' →
  (∀ name, name ∈ names → gadget_path name ≠ Return p) →
  fs' !! p = fs !! p.
Proof.
  revert fs. induction names as [|name names IH]; intros fs.
  - now intros [= <-].
  - intros (path & out & Hpath & _ & Hrest)%gadgets_loop_done_cons Hno.
    rewrite (IH _ Hrest) by (intros n Hn; apply Hno; now right).
    apply lookup_insert_ne. intros ->. apply (Hno name); [left | assumption].
Qed.

Lemma gadgets_loop_app (names1 names2 : list string) (fs : gmap string (list string)) :
  gadgets_loop ropper (names1 ++ names2) fs
  = match gadgets_loop ropper names1 fs with
    | LoopDone fs' => gadgets_loop ropper names2 fs'
    | LoopFailed e fs' => LoopFailed e fs'
    end.
Proof.
  revert fs. induction names1 as [|name names1 IH]; intros fs; [reflexivity|].
  change ((name :: names1) ++ names2)%list with (name :: (names1 ++ names2))%list.
  simpl gadgets_loop. destruct (gadget_path name) as [path|e]; [|reflexivity].
  cbv zeta. destruct (ropper (join Extractor.binary_dir name)) as [[out [|]]|];
    [apply IH | reflexivity..].
Qed.

End Loop.

End RunFacts.

(** X14. For the name of the library of a main package of a target
    architecture, glibc-A.B-R.fcN.arch_libc.so.6 with numbers A, B, R and
    N, the gadget file is
    ../Gadgets/Fedora/arch/glibc_A.B_fcN_arch.txt: the pieces that the
    compiler cuts out of the name are the version, the disttag and the
    architecture of the package. *)
Theorem gadget_path_of_a_package_name (A B R N arch : string) :
  Spec.digit_string A → Spec.digit_string B → Spec.digit_string R → Spec.digit_string N →
  arch ∈ Resolver.target_architectures →
  Gadgets.gadget_path
    ("glibc-" +:+ A +:+ "." +:+ B +:+ "-" +:+ R +:+ ".fc" +:+ N +:+ "." +:+ arch
     +:+ "_libc.so.6")
  = Return ("../Gadgets/Fedora/" +:+ arch +:+ "/glibc_" +:+ A +:+ "." +:+ B +:+ "_fc" +:+ N
            +:+ "_" +:+ arch +:+ ".txt").
Proof.
  intros HA HB HR HN Harch.
  pose proof (RunFacts.digits_lack "." A eq_refl HA) as HA1.
  pose proof (RunFacts.digits_lack "." B eq_refl HB) as HB1.
  pose proof (RunFacts.digits_lack "." R eq_refl HR) as HR1.
  pose proof (RunFacts.digits_lack "." N eq_refl HN) as HN1.
  pose proof (RunFacts.digits_lack "-" A eq_refl HA) as HA2.
  pose proof (RunFacts.digits_lack "-" B eq_refl HB) as HB2.
  set (piece := arch +:+ "_libc").
  assert (Notions.lacks "." piece = true ∧ Notions.lacks "-" arch = true
          ∧ Crawler.replace "_libc" "" piece = arch
          ∧ PyPath.join Gadgets.gadgets_dir arch = "../Gadgets/Fedora/" +:+ arch
          ∧ ∀ file, PyStr.startswith "/" file = false →
                    PyPath.join ("../Gadgets/Fedora/" +:+ arch) file
                    = "../Gadgets/Fedora/" +:+ arch +:+ "/" +:+ file)
    as (Hp1 & Hp2 & Hrep & Hdir & Hjoin).
  { subst piece.
    repeat (apply elem_of_cons in Harch as [->|Harch];
            [repeat split; try reflexivity;
             intros file Hf; unfold PyPath.join; rewrite Hf; reflexivity|]).
    now apply elem_of_nil in Harch. }
  assert (Gadgets.split "."
            ("glibc-" +:+ A +:+ "." +:+ B +:+ "-" +:+ R +:+ ".fc" +:+ N +:+ "." +:+ arch
             +:+ "_libc.so.6")
          = ["glibc-" +:+ A; B +:+ "-" +:+ R; "fc" +:+ N; piece; "so"; "6"]) as Hdots.
  { replace ("glibc-" +:+ A +:+ "." +:+ B +:+ "-" +:+ R +:+ ".fc" +:+ N +:+ "." +:+ arch
             +:+ "_libc.so.6")
      with (("glibc-" +:+ A) +:+ String "."
              ((B +:+ "-" +:+ R) +:+ String "."
                 (("fc" +:+ N) +:+ String "." (piece +:+ String "." "so.6"))))
      by (subst piece; rewrite !PyStrFacts.app_assoc; reflexivity).
    rewrite !RunFacts.split_app_sep; [reflexivity| | | |]; try assumption;
      rewrite ?RunFacts.lacks_app, ?HA1, ?HB1, ?HR1, ?HN1; reflexivity. }
  assert (Gadgets.split "-"
            ("glibc-" +:+ A +:+ "." +:+ B +:+ "-" +:+ R +:+ ".fc" +:+ N +:+ "." +:+ arch
             +:+ "_libc.so.6") !! 1
          = Some (A +:+ "." +:+ B)) as Hdash.
  { replace ("glibc-" +:+ A +:+ "." +:+ B +:+ "-" +:+ R +:+ ".fc" +:+ N +:+ "." +:+ arch
             +:+ "_libc.so.6")
      with ("glibc" +:+ String "-"
              ((A +:+ "." +:+ B) +:+ String "-"
                 (R +:+ ".fc" +:+ N +:+ "." +:+ arch +:+ "_libc.so.6")))
      by (rewrite !PyStrFacts.app_assoc; reflexivity).
    rewrite !RunFacts.split_app_sep; [reflexivity| |reflexivity].
    rewrite !RunFacts.lacks_app, HA2, HB2. reflexivity. }
  unfold Gadgets.gadget_path. rewrite Hdots, Hdash. simpl lookup. cbv beta iota zeta.
  rewrite Hrep, Hdir, Hjoin by reflexivity.
  now rewrite !PyStrFacts.app_assoc.
Qed.

Lemma gadget_path_of_a_package_name_witness :
  Gadgets.gadget_path
    ("glibc-" +:+ "2" +:+ "." +:+ "39" +:+ "-" +:+ "2" +:+ ".fc" +:+ "40" +:+ "." +:+ "x86_64"
     +:+ "_libc.so.6")
  = Return ("../Gadgets/Fedora/" +:+ "x86_64" +:+ "/glibc_" +:+ "2" +:+ "." +:+ "39" +:+ "_fc"
            +:+ "40" +:+ "_" +:+ "x86_64" +:+ ".txt").
Proof.
  apply gadget_path_of_a_package_name;
    try (split; [discriminate | reflexivity]).
  vm_compute. right. right. left.
Defined.

(** X15. When [create_rop_gadgets] ends normally, the staging tree existed
    as a directory and has been removed, every name has its gadget file,
    and that file holds no line with "[LOAD]" or "[INFO]" in any letter
    case; a file that is the gadget file of no name is as it was before
    the run. *)
Theorem gadget_files_are_clean_after_a_run
    (names : list string) (ropper : string → option (list string * bool))
    (staging_exists staging_is_dir : bool) (fs : gmap string (list string))
    (st : Gadgets.run_state) :
  Gadgets.create_rop_gadgets (Finished names) ropper staging_exists staging_is_dir fs
  = Gadgets.Done st →
  staging_exists = true ∧ staging_is_dir = true ∧ Gadgets.staging_removed st = true
  ∧ (∀ name, name ∈ names →
       ∃ path lines, Gadgets.gadget_path name = Return path
                     ∧ Gadgets.files st !! path = Some lines ∧ Notions.clean lines)
  ∧ (∀ p, (∀ name, name ∈ names → Gadgets.gadget_path name ≠ Return p) →
          Gadgets.files st !! p = fs !! p).
Proof.
  unfold Gadgets.create_rop_gadgets.
  destruct (Gadgets.gadgets_loop ropper names fs) as [fs'|e fs'] eqn:Hrun; [|discriminate].
  destruct staging_exists; simpl; [|discriminate].
  destruct staging_is_dir; simpl; [|discriminate].
  intros [= <-]. simpl. repeat split.
  - intros name Hin.
    destruct (RunFacts.gadgets_loop_paths ropper names fs fs' name Hrun Hin)
      as (path & Hpath & [lines Hlines]).
    exists path, lines. repeat split; try assumption.
    destruct (RunFacts.gadgets_loop_files ropper names fs fs' path lines Hrun Hlines)
      as [Hc|[_ Hno]]; [assumption|].
    now destruct (Hno name Hin).
  - intros p Hp. now apply (RunFacts.gadgets_loop_untouched ropper names).
Qed.

Lemma gadget_files_are_clean_after_a_run_witness :
  ∃ path lines,
    Gadgets.gadget_path "glibc-2.39-2.fc40.x86_64_libc.so.6" = Return path
    ∧ ({[ "../Gadgets/Fedora/x86_64/glibc_2.39_fc40_x86_64.txt"
          := ["0x0002a3e5: pop rdi; ret;"] ]} : gmap string (list string)) !! path
      = Some lines
    ∧ Notions.clean lines.
Proof.
  destruct (gadget_files_are_clean_after_a_run
              ["glibc-2.39-2.fc40.x86_64_libc.so.6"] Notions.ropper_ok true true ∅
              (Gadgets.RunState
                 {[ "../Gadgets/Fedora/x86_64/glibc_2.39_fc40_x86_64.txt"
                    := ["0x0002a3e5: pop rdi; ret;"] ]} true))
    as (_ & _ & _ & Hnames & _).
  - vm_compute. reflexivity.
  - apply Hnames. left.
Defined.

(** X16. When the tool ends with an error for a library, the run ends
    there with [CalledProcessError]: what the tool wrote stays in the gadget
    file as it is, noise lines included, the later names are not
    processed and the staging tree is not removed. *)
Theorem failed_tool_leaves_raw_output
    (before after : list string) (name path : string) (out : list string)
    (ropper : string → option (list string * bool))
    (staging_exists staging_is_dir : bool) (fs fs1 : gmap string (list string)) :
  Gadgets.gadgets_loop ropper before fs = Gadgets.LoopDone fs1 →
  Gadgets.gadget_path name = Return path →
  ropper (PyPath.join Extractor.binary_dir name) = Some (out, false) →
  Gadgets.create_rop_gadgets (Finished (before ++ name :: after)%list) ropper
    staging_exists staging_is_dir fs
  = Gadgets.Failed Gadgets.CalledProcessError (Gadgets.RunState (<[path := out]> fs1) false).
Proof.
  intros Hbefore Hpath Hrop. unfold Gadgets.create_rop_gadgets.
  rewrite RunFacts.gadgets_loop_app, Hbefore.
  simpl Gadgets.gadgets_loop. rewrite Hpath. cbv zeta. now rewrite Hrop.
Qed.

Lemma failed_tool_leaves_raw_output_witness :
  Gadgets.create_rop_gadgets
    (Finished ([] ++ "glibc-2.39-2.fc40.x86_64_libc.so.6"
               :: ["glibc-2.40-3.fc41.x86_64_libc.so.6"])%list)
    Notions.ropper_fails true true ∅
  = Gadgets.Failed Gadgets.CalledProcessError
      (Gadgets.RunState
         (<[ "../Gadgets/Fedora/x86_64/glibc_2.39_fc40_x86_64.txt"
             := ["[INFO] Load gadgets from cache"] ]> ∅) false).
Proof. apply failed_tool_leaves_raw_output; reflexivity. Defined.

(** ** Facts about the way from the catalog to the URLs *)

Module PipelineFacts.
Import PyStr Spec PyStrFacts Crawler Resolver ResolverFacts Pipeline.

(** A dict in insertion order, read as a finite map. *)
Lemma dict_get_list_to_map (l : list (string * string)) (k : string) :
  dict_get k l = (list_to_map l : gmap string string) !! k.
Proof.
  induction l as [|[k' v] l IH]; simpl.
  - now rewrite lookup_empty.
  - destruct (String.eqb_spec k k') as [->|Hne].
    + now rewrite lookup_insert_eq.
    + rewrite lookup_insert_ne by congruence. exact IH.
Qed.

Lemma assign_arch_ordered_refines (archs : list string) (href : string)
    (l : list (string * string)) :
  NoDup l.*1 →
  NoDup (assign_arch_ordered archs href l).*1
  ∧ list_to_map (assign_arch_ordered archs href l)
    = assign_arch archs href (list_to_map l).
Proof.
  intros Hnd. induction archs as [|arch archs IH]; [now split|].
  rewrite assign_arch_cons. simpl assign_arch_ordered. unfold takes.
  rewrite dict_get_list_to_map.
  destruct ((list_to_map l : gmap string string) !! arch) as [h|] eqn:E; simpl.
  - rewrite andb_false_r. simpl. exact IH.
  - rewrite !andb_true_r.
    destruct (contains (String "/" (arch +:+ "/")) href); simpl; [|exact IH].
    destruct (main_package_search arch href); [|exact IH].
    assert (arch ∉ l.*1) as Hfresh.
    { intros Hin. apply not_elem_of_list_to_map_2 in E. contradiction. }
    split.
    + rewrite fmap_app. apply NoDup_app. repeat split; [assumption| |].
      * intros x Hx [->|H]%elem_of_cons; [contradiction | now apply elem_of_nil in H].
      * apply NoDup_singleton.
    + now apply list_to_map_snoc.
Qed.

(** The resolver in insertion order gives the entries of the resolver's
    map, each architecture once. *)
Lemma extract_rpm_urls_ordered_refines (response : option (list anchor)) :
  NoDup (extract_rpm_urls_ordered response).*1
  ∧ list_to_map (extract_rpm_urls_ordered response)
    = extract_rpm_urls_from_buildinfo response.
Proof.
  destruct response as [links|]; simpl; [|split; [constructor | reflexivity]].
  assert (∀ l : list (string * string),
            NoDup l.*1 →
            NoDup (foldl resolve_link_ordered l links).*1
            ∧ list_to_map (foldl resolve_link_ordered l links)
              = foldl resolve_link (list_to_map l) links) as H.
  { induction links as [|link links IH]; intros l Hl; [now split|]. simpl.
    assert (NoDup (resolve_link_ordered l link).*1
            ∧ list_to_map (resolve_link_ordered l link)
              = resolve_link (list_to_map l) link) as [H1 H2].
    { unfold resolve_link_ordered, resolve_link.
      destruct (is_glibc_rpm (a_href link)); [|now split].
      now apply assign_arch_ordered_refines. }
    destruct (IH _ H1) as [H3 H4]. split; [assumption|]. now rewrite H4, H2. }
  apply (H []). constructor.
Qed.

(** A URL that the ordered resolver gives is a link that matches a target
    architecture. *)
Lemma extract_rpm_urls_ordered_sound (response : option (list anchor)) (arch href : string) :
  (arch, href) ∈ extract_rpm_urls_ordered response →
  arch ∈ target_architectures ∧ link_matches arch href = true.
Proof.
  intros Hin. destruct (extract_rpm_urls_ordered_refines response) as [Hnd Hmap].
  assert (extract_rpm_urls_from_buildinfo response !! arch = Some href) as Hk.
  { rewrite <- Hmap. now apply elem_of_list_to_map_1. }
  destruct response as [links|]; simpl in Hk; [|now rewrite lookup_empty in Hk].
  destruct (resolve_links_spec links) as [H1 _].
  destruct (H1 arch href Hk) as (Ht & _ & _ & _ & _ & _ & Hm & _). now split.
Qed.

Lemma insert_sorted_elem (x y : download_item) (l : list download_item) :
  y ∈ insert_sorted x l ↔ y = x ∨ y ∈ l.
Proof.
  induction l as [|z l IH]; simpl.
  - rewrite list_elem_of_singleton, elem_of_nil. tauto.
  - destruct (key_le x z); rewrite !elem_of_cons, ?IH; tauto.
Qed.

(** Sorting keeps the elements. *)
Lemma sort_by_key_elem (y : download_item) (l : list download_item) :
  y ∈ sort_by_key l ↔ y ∈ l.
Proof.
  unfold sort_by_key. induction l as [|x l IH]; simpl; [reflexivity|].
  rewrite insert_sorted_elem, elem_of_cons, IH. tauto.
Qed.

Lemma insert_sorted_length (x : download_item) (l : list download_item) :
  List.length (insert_sorted x l) = S (List.length l).
Proof.
  induction l as [|z l IH]; simpl; [reflexivity|].
  destruct (key_le x z); simpl; [reflexivity | now rewrite IH].
Qed.

Section Fetch.
Variable lib : urllib.
Variable http_get : nat -> string -> option (list anchor).

(** One request for each entry, and the URLs of each item come from the
    resolver. *)
Lemma generate_download_urls_spec (items : list ((string * string) * entry))
    (trace : list string) :
  List.length (generate_download_urls lib http_get items trace).2
  = List.length trace + List.length items
  ∧ List.length (generate_download_urls lib http_get items trace).1 = List.length items
  ∧ ∀ item, item ∈ (generate_download_urls lib http_get items trace).1 →
            ∃ response, item_rpm_urls item = extract_rpm_urls_ordered response.
Proof.
  revert trace. induction items as [|[[version disttag] info] items IH]; intros trace.
  - simpl. repeat split; [lia|]. intros item H. now apply elem_of_nil in H.
  - simpl.
    specialize (IH (trace ++ [urljoin lib koji_url ("buildinfo?buildID=" +:+ build_id info)])%list).
    destruct (generate_download_urls lib http_get items _) as [rest trace'].
    simpl in *. destruct IH as (H1 & H2 & H3). rewrite length_app in H1. simpl in H1.
    repeat split; [lia | lia |].
    intros item [->|Hin]%elem_of_cons; [eexists; reflexivity | now apply H3].
Qed.

End Fetch.

End PipelineFacts.


(** ** Facts about the download stage as a whole *)

Module StageFacts.
Import PyStr Spec Crawler Pipeline.

(** The loop over the URLs raises nothing but the error of the disk. *)
Lemma download_loop_crash (url_path : string → string)
    (stream : nat → string → Downloader.transfer) (urls : list string)
    (st ds : Downloader.download_state) (e : exn) :
  Downloader.download_loop url_path stream urls st = Crashed e ds → e = OSError.
Proof.
  revert st. induction urls as [|url urls IH]; intros st; simpl; [discriminate|].
  destruct (stream _ url); [apply IH | apply IH | now intros [= <- _]].
Qed.

Lemma items_of_empty (items : list ((string * string) * entry)) :
  (list_to_map items : catalog) = ∅ → items = [].
Proof.
  destruct items as [|[k e] items]; [reflexivity|]. simpl. intros H.
  now apply insert_non_empty in H.
Qed.

(** A page that cannot be fetched ends the pass at the first test. *)
Lemma crawl_iter_unreachable (lib : urllib)
    (http_get : nat → string → option (list anchor)) (st : crawl_state) :
  http_get (List.length (requests st)) (current_url st) = None →
  crawl_iter lib http_get st = Break (stopped_at st).
Proof.
  intros Hget. unfold crawl_iter, scrape_glibc_versions_from_page. now rewrite Hget.
Qed.

(** At most one URL for each target architecture. *)
Lemma extract_rpm_urls_ordered_length (response : option (list anchor)) :
  (List.length (extract_rpm_urls_ordered response) ≤ 3)%nat.
Proof.
  destruct (PipelineFacts.extract_rpm_urls_ordered_refines response) as [Hnd _].
  rewrite <- (length_fmap fst).
  change 3 with (List.length Resolver.target_architectures).
  apply submseteq_length, NoDup_submseteq; [exact Hnd|].
  intros arch Hin. apply list_elem_of_fmap in Hin as ([arch' href] & -> & Hin).
  now apply PipelineFacts.extract_rpm_urls_ordered_sound in Hin as [Harch _].
Qed.

Lemma sort_by_key_length (l : list download_item) :
  List.length (sort_by_key l) = List.length l.
Proof.
  unfold sort_by_key. induction l as [|x l IH]; simpl; [reflexivity|].
  now rewrite PipelineFacts.insert_sorted_length, IH.
Qed.

Lemma flat_length (l : list download_item) :
  (∀ item, item ∈ l → (List.length (item_rpm_urls item) ≤ 3)%nat) →
  (List.length (concat (map (λ item, map snd (item_rpm_urls item)) l))
   ≤ 3 * List.length l)%nat.
Proof.
  induction l as [|x l IH]; intros H; simpl; [lia|].
  rewrite length_app, length_map.
  assert (List.length (item_rpm_urls x) ≤ 3)%nat by (apply H; left).
  assert (List.length (concat (map (λ item, map snd (item_rpm_urls item)) l))
          ≤ 3 * List.length l)%nat by (apply IH; intros item Hin; apply H; now right).
  lia.
Qed.

End StageFacts.

(** X18. The list that [fetch_rpm_urls_all_versions] returns has at most
    three URLs for each entry of the catalog, one for each target
    architecture. *)
Theorem fetched_urls_at_most_three_per_build
    (lib : Crawler.urllib) (http_get : nat → string → option (list Crawler.anchor))
    (items : list ((string * string) * Crawler.entry)) (trace trace' : list string)
    (urls : list string) :
  Pipeline.fetch_rpm_urls_all_versions lib http_get items trace = (Some urls, trace') →
  (List.length urls ≤ 3 * List.length items)%nat.
Proof.
  unfold Pipeline.fetch_rpm_urls_all_versions.
  destruct items as [|item0 items0]; [discriminate|].
  pose proof (PipelineFacts.generate_download_urls_spec lib http_get (item0 :: items0) trace)
    as (_ & Hlen & Hitems).
  destruct (Pipeline.generate_download_urls lib http_get (item0 :: items0) trace)
    as [generated trace1].
  cbn [fst snd] in Hlen, Hitems. intros [= <- <-]. rewrite <- Hlen.
  rewrite <- (StageFacts.sort_by_key_length generated).
  apply StageFacts.flat_length. intros item Hin.
  apply (proj1 (PipelineFacts.sort_by_key_elem item generated)) in Hin.
  destruct (Hitems item Hin) as [response ->].
  apply StageFacts.extract_rpm_urls_ordered_length.
Qed.

Lemma fetched_urls_at_most_three_per_build_witness :
  (List.length
     ["https://kojipkgs.fedoraproject.org/packages/glibc/2.39/2.fc40/aarch64/glibc-2.39-2.fc40.aarch64.rpm";
      "https://kojipkgs.fedoraproject.org/packages/glibc/2.39/2.fc40/x86_64/glibc-2.39-2.fc40.x86_64.rpm"]
   ≤ 3 * List.length Notions.one_build)%nat.
Proof.
  apply (fetched_urls_at_most_three_per_build Fixtures.plain_urllib Notions.build_pages
           Notions.one_build [] ["buildinfo?buildID=2400002"]).
  vm_compute. reflexivity.
Defined.

(** X19. When the crawl returns, the download stage raises [TypeError]
    exactly when the catalog is empty: [fetch_rpm_urls_all_versions] then
    returns [None], and the loop over the URLs is entered on it. The error
    comes before any download. *)
Theorem empty_catalog_is_a_type_error
    (lib : Crawler.urllib) (http_get : nat → string → option (list Crawler.anchor))
    (items_of : gmap (string * string) Crawler.entry
                → list ((string * string) * Crawler.entry))
    (url_path : string → string) (stream : nat → string → Downloader.transfer)
    (fuel : nat) (st : Crawler.crawl_state) :
  Notions.enumerates items_of →
  Crawler.get_glibc_versions_all_pages lib http_get fuel = Some (Finished st) →
  (Crawler.version_dict st = ∅ →
   Pipeline.download_stage lib http_get items_of url_path stream fuel
   = Some (Crashed TypeError (Downloader.DownloadState [] 0 [])))
  ∧ (Crawler.version_dict st ≠ ∅ →
     ∀ ds, Pipeline.download_stage lib http_get items_of url_path stream fuel
           ≠ Some (Crashed TypeError ds)).
Proof.
  intros Henum Hcrawl. unfold Pipeline.download_stage. rewrite Hcrawl. split.
  - intros Hempty.
    rewrite (StageFacts.items_of_empty (items_of (Crawler.version_dict st)))
      by (rewrite Henum; exact Hempty).
    reflexivity.
  - intros Hne ds.
    destruct (items_of (Crawler.version_dict st)) as [|item items] eqn:E.
    { exfalso. apply Hne. rewrite <- (Henum (Crawler.version_dict st)), E. reflexivity. }
    unfold Pipeline.fetch_rpm_urls_all_versions.
    destruct (Pipeline.generate_download_urls lib http_get (item :: items) _)
      as [generated trace1].
    unfold Downloader.download_rpms_all_version. intros [= H].
    apply StageFacts.download_loop_crash in H. discriminate.
Qed.

Lemma empty_catalog_is_a_type_error_witness :
  (Crawler.version_dict (Spec.stopped_at Crawler.initial_state) = ∅ →
   Pipeline.download_stage Fixtures.plain_urllib Notions.unreachable map_to_list
     (λ url, url) Fixtures.disk_fails_first 1
   = Some (Crashed TypeError (Downloader.DownloadState [] 0 [])))
  ∧ (Crawler.version_dict (Spec.stopped_at Crawler.initial_state) ≠ ∅ →
     ∀ ds, Pipeline.download_stage Fixtures.plain_urllib Notions.unreachable map_to_list
             (λ url, url) Fixtures.disk_fails_first 1
           ≠ Some (Crashed TypeError ds)).
Proof.
  apply (empty_catalog_is_a_type_error Fixtures.plain_urllib Notions.unreachable map_to_list
           (λ url, url) Fixtures.disk_fails_first 1 (Spec.stopped_at Crawler.initial_state)).
  - intros d. apply list_to_map_to_list.
  - reflexivity.
Defined.

(** X20. When the first page of the listing cannot be fetched, or none of
    its link texts matches the version pattern, the download stage ends
    with [TypeError] after that one request, whatever the number of passes
    granted to the crawl: nothing reports the empty catalog to the
    caller. *)
Theorem unreachable_listing_is_a_type_error
    (lib : Crawler.urllib) (http_get : nat → string → option (list Crawler.anchor))
    (items_of : gmap (string * string) Crawler.entry
                → list ((string * string) * Crawler.entry))
    (url_path : string → string) (stream : nat → string → Downloader.transfer)
    (fuel : nat) :
  Notions.enumerates items_of →
  (http_get 0 Crawler.base_url = None
   ∨ ∃ links, http_get 0 Crawler.base_url = Some links
              ∧ ∀ link, link ∈ links → ¬ Spec.version_disttag_text (Spec.visible_text link)) →
  Crawler.get_glibc_versions_all_pages lib http_get (S fuel)
  = Some (Finished (Spec.stopped_at Crawler.initial_state))
  ∧ Pipeline.download_stage lib http_get items_of url_path stream (S fuel)
    = Some (Crashed TypeError (Downloader.DownloadState [] 0 [])).
Proof.
  intros Henum Hpage.
  assert (Crawler.get_glibc_versions_all_pages lib http_get (S fuel)
          = Some (Finished (Spec.stopped_at Crawler.initial_state))) as Hcrawl.
  { unfold Crawler.get_glibc_versions_all_pages.
    apply PaginationFacts.crawl_loop_break; [reflexivity|].
    destruct Hpage as [Hnone | (links & Hsome & Hno)].
    - now apply StageFacts.crawl_iter_unreachable.
    - now apply (PaginationFacts.crawl_iter_no_match lib http_get _ links). }
  split; [exact Hcrawl|].
  unfold Pipeline.download_stage. rewrite Hcrawl.
  rewrite (StageFacts.items_of_empty
             (items_of (Crawler.version_dict (Spec.stopped_at Crawler.initial_state))))
    by (rewrite Henum; reflexivity).
  reflexivity.
Qed.

Lemma unreachable_listing_is_a_type_error_witness :
  Crawler.get_glibc_versions_all_pages Fixtures.plain_urllib Notions.unreachable 1
  = Some (Finished (Spec.stopped_at Crawler.initial_state))
  ∧ Pipeline.download_stage Fixtures.plain_urllib Notions.unreachable map_to_list
      (λ url, url) Fixtures.disk_fails_first 1
    = Some (Crashed TypeError (Downloader.DownloadState [] 0 [])).
Proof.
  apply (unreachable_listing_is_a_type_error Fixtures.plain_urllib Notions.unreachable
           map_to_list (λ url, url) Fixtures.disk_fails_first 0).
  - intros d. apply list_to_map_to_list.
  - left. reflexivity.
Defined.

